(** * db_migrate: a shallow embedding of the CometBFT database migration tool

    The development follows [db_migrate.go]: [main] creates the staging
    directory, migrates the four CometBFT databases (and the light client
    database when it is detected) with [migrateDB], asks the operator for a
    confirmation with [promptYesNo], moves the migrated directories over the
    data directory and removes the staging directory.

    The program is effectful.  Its effects are threaded through an explicit
    [World]: the two directories the tool works on, the outcomes of the
    fallible calls into the operating system and the storage library, the
    wall clock, the operator's input, the goroutines and tickers it starts,
    and the trace of everything it does. *)

From Stdlib Require Import ZArith List String Ascii Lia.
From Stdlib.Strings Require Import Byte.
From stdpp Require Import base option list gmap strings fin_maps sorting.

Local Open Scope string_scope.
Local Open Scope list_scope.
Local Open Scope Z_scope.

(** ** Data model *)

(** Keys and values are Go byte slices. *)
Abbreviation bytes := (list byte).

#[global] Instance byte_eq_dec : EqDecision byte := Byte.byte_eq_dec.

#[global] Instance byte_countable : Countable byte :=
  inj_countable Byte.to_N Byte.of_N Byte.of_to_N.

(** A record of a store: the pair the iterator gives as [Key()], [Value()]. *)
Abbreviation record := (bytes * bytes)%type.

(** The content of a store: a finite map from keys to values. *)
Abbreviation KV := (gmap bytes bytes).

(** [db.BackendType] is a Go string. *)
Abbreviation BackendType := string.

Definition GoLevelDBBackend : BackendType := "goleveldb".
Definition PebbleDBBackend : BackendType := "pebbledb".

(** The two directories of the flags [data_dir] and [temp_dir].  They are
    taken to be two different directories, neither inside the other, as with
    the default values [$HOME/.cometbft/data] and
    [$HOME/.cometbft/data_migration]. *)
Inductive dir := DataDir | TempDir.

#[global] Instance dir_eq_dec : EqDecision dir.
Proof. solve_decision. Defined.

(** A path is one of the two directories or a top-level entry of one. *)
Abbreviation path := (dir * option string)%type.

(** [filepath.Join(dir, name)] *)
Definition Join (d : dir) (name : string) : path := (d, Some name).

(** What a directory holds under a name: a file, a plain directory with its
    files, or the directory of a store with the backend that wrote it. *)
Inductive entry :=
| EFile (data : bytes)
| EDir (files : gmap string bytes)
| EStore (backend : BackendType) (kv : gmap bytes bytes).

#[global] Instance entry_eq_dec : EqDecision entry.
Proof. solve_decision. Defined.

(** [entry.IsDir()] of [os.DirEntry] *)
Definition entry_is_dir (e : entry) : bool :=
  match e with
  | EFile _ => false
  | EDir _ | EStore _ _ => true
  end.

(** Error numbers of the operating system and causes reported by the
    storage library. *)
Inductive errno :=
| ENOENT | EEXIST | ENOTDIR | ENOTEMPTY | EISDIR | EINVAL
| EACCES | EIO | ENOSPC | EBACKEND | ECLOSED | EOF.

#[global] Instance errno_eq_dec : EqDecision errno.
Proof. solve_decision. Defined.

(** Go [error] values: a bare cause, [*os.PathError], [*os.LinkError], and
    the errors [fmt.Errorf] builds around a cause with [%w]. *)
Inductive error :=
| Cause (e : errno)
| PathError (op : string) (p : path) (e : errno)
| LinkError (op : string) (old new : path) (e : errno)
| Errorf (format : string) (args : list string) (wrapped : error).

#[global] Instance error_eq_dec : EqDecision error.
Proof. solve_decision. Defined.

(** The error at the bottom of a chain of [%w] wrappings. *)
Fixpoint root_cause (e : error) : error :=
  match e with
  | Errorf _ _ e' => root_cause e'
  | _ => e
  end.

(** The paths an error value names when it is printed with [%v]. *)
Fixpoint error_paths (e : error) : list path :=
  match e with
  | Cause _ => []
  | PathError _ p _ => [p]
  | LinkError _ old new _ => [old; new]
  | Errorf _ _ e' => error_paths e'
  end.

(** The strings an error value carries in its message. *)
Fixpoint error_names (e : error) : list string :=
  match e with
  | Errorf _ args e' => args ++ error_names e'
  | _ => []
  end.

(** Arguments of [fmt.Printf]. *)
Inductive Arg :=
| AStr (s : string)
| AInt (n : Z)
| AErr (e : error)
| APath (p : path)
| ADuration (d : Z).

#[global] Instance Arg_eq_dec : EqDecision Arg.
Proof. solve_decision. Defined.

(** Calls into the [os] package. *)
Inductive FsOp :=
| MkdirAll (d : dir)
| Stat (p : path)
| ReadDir (d : dir)
| RemoveAll (p : path)
| Rename (src dst : path).

#[global] Instance FsOp_eq_dec : EqDecision FsOp.
Proof. solve_decision. Defined.

(** Calls into the storage library. *)
Inductive DbOp :=
| NewDB (name : string) (backend : BackendType) (d : dir)
| Iterator (d : dir) (name : string)
| NewBatch (d : dir) (name : string)
| BatchSet (key value : bytes)
| WriteSync (d : dir) (name : string) (batch : list record)
| BatchClose
| IterClose
| DBClose (d : dir) (name : string).

#[global] Instance DbOp_eq_dec : EqDecision DbOp.
Proof. solve_decision. Defined.

(** Everything the program does that can be observed from outside, with the
    error each fallible call returned ([None] is Go's [nil]). *)
Inductive Event :=
| EvPrintf (format : string) (args : list Arg)
| EvPrintln (args : list Arg)
| EvFs (op : FsOp) (err : option error)
| EvDb (op : DbOp) (err : option error)
| EvReadString (line : option string)
| EvNow (t : Z)
| EvNewTicker (id : nat)
| EvTickerStop (id : nat)
| EvGo (id : nat)
| EvSend (id : nat) (count : Z).

#[global] Instance Event_eq_dec : EqDecision Event.
Proof. solve_decision. Defined.

(** A goroutine is running (possibly blocked) or has returned. *)
Inductive gstatus := Running | Exited.

#[global] Instance gstatus_eq_dec : EqDecision gstatus.
Proof. solve_decision. Defined.

(** The file system: the entries of the data directory and of the staging
    directory; [None] when the directory does not exist. *)
Record FS := mkFS {
  data_dir : option (gmap string entry);
  temp_dir : option (gmap string entry)
}.

#[global] Instance FS_eq_dec : EqDecision FS.
Proof. solve_decision. Defined.

Definition get_dir (d : dir) (f : FS) : option (gmap string entry) :=
  match d with
  | DataDir => data_dir f
  | TempDir => temp_dir f
  end.

Definition set_dir (d : dir) (v : option (gmap string entry)) (f : FS) : FS :=
  match d with
  | DataDir => mkFS v (temp_dir f)
  | TempDir => mkFS (data_dir f) v
  end.

(** The world the program runs in.
    - [fs]: the two directories;
    - [faults]: the outcome the environment gives to the next fallible calls,
      in order ([Some e]: the call fails with [e] and has no effect; [None],
      or an exhausted list: the call behaves as its arguments determine);
    - [clock]: the next readings of the wall clock, in nanoseconds;
    - [stdin]: the lines the operator will type, without their newline;
      after them the input is at end of file;
    - [trace]: what has happened so far, oldest first;
    - [tickers]: for every ticker created, whether it is still active;
    - [goroutines]: for every goroutine started, its status. *)
Record World := mkWorld {
  fs : FS;
  faults : list (option errno);
  clock : list Z;
  stdin : list string;
  trace : list Event;
  tickers : list bool;
  goroutines : list gstatus
}.

#[global] Instance World_eq_dec : EqDecision World.
Proof. solve_decision. Defined.

Definition with_fs (f : FS) (w : World) : World :=
  mkWorld f (faults w) (clock w) (stdin w) (trace w) (tickers w) (goroutines w).
Definition with_faults (x : list (option errno)) (w : World) : World :=
  mkWorld (fs w) x (clock w) (stdin w) (trace w) (tickers w) (goroutines w).
Definition with_clock (x : list Z) (w : World) : World :=
  mkWorld (fs w) (faults w) x (stdin w) (trace w) (tickers w) (goroutines w).
Definition with_stdin (x : list string) (w : World) : World :=
  mkWorld (fs w) (faults w) (clock w) x (trace w) (tickers w) (goroutines w).
Definition with_trace (x : list Event) (w : World) : World :=
  mkWorld (fs w) (faults w) (clock w) (stdin w) x (tickers w) (goroutines w).
Definition with_tickers (x : list bool) (w : World) : World :=
  mkWorld (fs w) (faults w) (clock w) (stdin w) (trace w) x (goroutines w).
Definition with_goroutines (x : list gstatus) (w : World) : World :=
  mkWorld (fs w) (faults w) (clock w) (stdin w) (trace w) (tickers w) x.

(** The live data directory and the staging directory of a world. *)
Definition live (w : World) : option (gmap string entry) := data_dir (fs w).
Definition staging (w : World) : option (gmap string entry) := temp_dir (fs w).

(** ** The monad of programs *)

(** A computation returns a value, ends the process ([os.Exit]) or never
    returns. *)
Inductive Res (A : Type) :=
| Val (a : A)
| Exit (code : Z)
| Hang.
Arguments Val {A} a.
Arguments Exit {A} code.
Arguments Hang {A}.

#[global] Instance Res_eq_dec {A} `{EqDecision A} : EqDecision (Res A).
Proof. solve_decision. Defined.

Definition M (A : Type) : Type := World → Res A * World.

#[global] Instance M_ret : MRet M := λ A a w, (Val a, w).

#[global] Instance M_bind : MBind M := λ A B f m w,
  match m w with
  | (Val a, w') => f a w'
  | (Exit c, w') => (Exit c, w')
  | (Hang, w') => (Hang, w')
  end.

(** Appends an event to the trace. *)
Definition emit (e : Event) : M unit :=
  λ w, (Val tt, with_trace (trace w ++ [e]) w).

(** Takes the environment's outcome for the next fallible call. *)
Definition next_fault : M (option errno) :=
  λ w, (Val (default None (head (faults w))), with_faults (tail (faults w)) w).

Definition get_fs : M FS := λ w, (Val (fs w), w).
Definition put_fs (f : FS) : M unit := λ w, (Val tt, with_fs f w).

(** Go's [defer]: [f] runs when [body] returns, whatever it returns; it does
    not run when the process exits inside [body]. *)
Definition defer {A} (f : M unit) (body : M A) : M A :=
  r ← body; f;; mret r.

(** A [for _, x := range xs] loop. *)
Fixpoint forEach {A} (xs : list A) (body : A → M unit) : M unit :=
  match xs with
  | [] => mret tt
  | x :: rest => body x;; forEach rest body
  end.

(** ** The [os] package *)

(** Whether a path exists. *)
Definition fs_exists (p : path) (f : FS) : bool :=
  match p with
  | (d, None) => bool_decide (is_Some (get_dir d f))
  | (d, Some name) => bool_decide (is_Some (get_dir d f ≫= (.!! name)))
  end.

(** [os.Stat]: succeeds on an existing path. *)
Definition fs_stat (p : path) (f : FS) : errno + FS :=
  if fs_exists p f then inr f else inl ENOENT.

(** [os.MkdirAll]: creates the directory unless it exists already. *)
Definition fs_mkdirAll (d : dir) (f : FS) : errno + FS :=
  match get_dir d f with
  | Some _ => inr f
  | None => inr (set_dir d (Some ∅) f)
  end.

(** [os.RemoveAll]: removes the path with everything under it; a path that
    does not exist is not an error. *)
Definition fs_removeAll (p : path) (f : FS) : errno + FS :=
  match p with
  | (d, None) => inr (set_dir d None f)
  | (d, Some name) =>
      match get_dir d f with
      | Some m => inr (set_dir d (Some (delete name m)) f)
      | None => inr f
      end
  end.

(** Whether [rename(2)] may replace an existing [dst] by [src]: a file
    replaces a file, a directory replaces an empty directory. *)
Definition rename_may_replace (src dst : entry) : bool :=
  match src, dst with
  | EFile _, EFile _ => true
  | (EDir _ | EStore _ _), EDir files => bool_decide (files = ∅)
  | _, _ => false
  end.

(** [os.Rename] between entries of the two directories. *)
Definition fs_rename (src dst : path) (f : FS) : errno + FS :=
  match src, dst with
  | (sd, Some sn), (dd, Some dn) =>
      match get_dir sd f ≫= (.!! sn) with
      | None => inl ENOENT
      | Some e =>
          if decide (src = dst) then inr f else
          let f' := set_dir sd (delete sn <$> get_dir sd f) f in
          match get_dir dd f' with
          | None => inl ENOENT
          | Some m =>
              match m !! dn with
              | None => inr (set_dir dd (Some (<[dn := e]> m)) f')
              | Some old =>
                  if rename_may_replace e old
                  then inr (set_dir dd (Some (<[dn := e]> m)) f')
                  else inl ENOTEMPTY
              end
          end
      end
  | _, _ => inl EINVAL
  end.

(** An [os.DirEntry]. *)
Record DirEntry := mkDirEntry { Name : string; IsDir : bool }.

#[global] Instance DirEntry_eq_dec : EqDecision DirEntry.
Proof. solve_decision. Defined.

Definition name_le (a b : string * entry) : Prop := String.leb a.1 b.1 = true.

#[global] Instance name_le_dec a b : Decision (name_le a b).
Proof. unfold name_le. apply _. Defined.

(** The entries [os.ReadDir] returns for a directory: sorted by file name. *)
Definition dir_entries (m : gmap string entry) : list DirEntry :=
  (λ ne : string * entry, mkDirEntry ne.1 (entry_is_dir ne.2))
    <$> merge_sort name_le (map_to_list m).

(** The error a failing call into [os] returns: [*PathError] or
    [*LinkError], with the paths of the call. *)
Definition fs_error (op : FsOp) (e : errno) : error :=
  match op with
  | MkdirAll d => PathError "mkdir" (d, None) e
  | Stat p => PathError "stat" p e
  | ReadDir d => PathError "open" (d, None) e
  | RemoveAll p => PathError "unlinkat" p e
  | Rename src dst => LinkError "rename" src dst e
  end.

(** A call into [os] that returns only an error: the environment may make it
    fail; otherwise it does what [sem] says. *)
Definition os_call (op : FsOp) (sem : FS → errno + FS) : M (option error) :=
  f ← next_fault;
  fs0 ← get_fs;
  match (match f with Some e => inl e | None => sem fs0 end) with
  | inl e => emit (EvFs op (Some (fs_error op e)));; mret (Some (fs_error op e))
  | inr fs1 => put_fs fs1;; emit (EvFs op None);; mret None
  end.

Definition os_Stat (p : path) : M (option error) :=
  os_call (Stat p) (fs_stat p).

Definition os_MkdirAll (d : dir) : M (option error) :=
  os_call (MkdirAll d) (fs_mkdirAll d).

Definition os_RemoveAll (p : path) : M (option error) :=
  os_call (RemoveAll p) (fs_removeAll p).

Definition os_Rename (src dst : path) : M (option error) :=
  os_call (Rename src dst) (fs_rename src dst).

Definition os_ReadDir (d : dir) : M (error + list DirEntry) :=
  f ← next_fault;
  fs0 ← get_fs;
  match (match f with Some e => inl e | None => from_option inr (inl ENOENT) (get_dir d fs0) end) with
  | inl e =>
      emit (EvFs (ReadDir d) (Some (fs_error (ReadDir d) e)));;
      mret (inl (fs_error (ReadDir d) e))
  | inr m =>
      emit (EvFs (ReadDir d) None);; mret (inr (dir_entries m))
  end.

(** ** The storage library *)

(** Modelled from the spec: the storage library ([cometbft-db]) is not part
    of the repository.  It is taken at the interface of the specification:
    [open], a full-range ordered iterator, batches with [add] and
    [commitSync], [close].  The source store is opened in read mode (a
    missing store is an [OpenError]), the destination in write mode (created
    when missing).  The code calls [db.NewDB] for both; [OpenMode] records
    which of the two a call is. *)
Inductive OpenMode := ReadMode | WriteMode.

(** The library keeps the database [name] of a directory in the
    sub-directory [name.db]. *)
Definition store_file (name : string) : string := (name ++ ".db")%string.

(** A [db.DB] handle. *)
Record DB := mkDB { db_dir : dir; db_name : string }.

(** A [db.Batch]: the writes added so far, oldest first. *)
Record Batch := mkBatch { batch_db : DB; batch_ops : list record }.

(** The store a handle refers to. *)
Definition fs_store (d : dir) (name : string) (f : FS) : option (BackendType * KV) :=
  e ← get_dir d f ≫= (.!! store_file name);
  match e with
  | EStore b kv => Some (b, kv)
  | _ => None
  end.

(** The content of the store [name] of a directory of a world. *)
Definition store_of (d : dir) (name : string) (w : World) : option KV :=
  snd <$> fs_store d name (fs w).

(** Modelled from the spec: [open(name, backendKind, location)]. *)
Definition fs_open (mode : OpenMode) (name : string) (backend : BackendType)
    (d : dir) (f : FS) : errno + FS :=
  match get_dir d f with
  | None =>
      match mode with
      | ReadMode => inl ENOENT
      | WriteMode => inr (set_dir d (Some {[store_file name := EStore backend ∅]}) f)
      end
  | Some m =>
      match m !! store_file name with
      | Some (EStore b _) => if decide (b = backend) then inr f else inl EBACKEND
      | Some _ => inl EINVAL
      | None =>
          match mode with
          | ReadMode => inl ENOENT
          | WriteMode => inr (set_dir d (Some (<[store_file name := EStore backend ∅]> m)) f)
          end
      end
  end.

Definition db_NewDB (mode : OpenMode) (name : string) (backend : BackendType)
    (d : dir) : M (error + DB) :=
  f ← next_fault;
  fs0 ← get_fs;
  match (match f with Some e => inl e | None => fs_open mode name backend d fs0 end) with
  | inl e => emit (EvDb (NewDB name backend d) (Some (Cause e)));; mret (inl (Cause e))
  | inr fs1 => put_fs fs1;; emit (EvDb (NewDB name backend d) None);;
               mret (inr (mkDB d name))
  end.

Fixpoint bytes_leb (a b : bytes) : bool :=
  match a, b with
  | [], _ => true
  | _ :: _, [] => false
  | x :: a', y :: b' =>
      if (Byte.to_N x <? Byte.to_N y)%N then true
      else if (Byte.to_N y <? Byte.to_N x)%N then false
      else bytes_leb a' b'
  end.

Definition key_le (a b : record) : Prop := bytes_leb a.1 b.1 = true.

#[global] Instance key_le_dec a b : Decision (key_le a b).
Proof. unfold key_le. apply _. Defined.

(** Modelled from the spec: the records a full-range iterator yields, in
    byte-lexicographic order of their keys. *)
Definition iter_records (kv : KV) : list record :=
  merge_sort key_le (map_to_list kv).

Definition db_Iterator (h : DB) : M (error + list record) :=
  f ← next_fault;
  fs0 ← get_fs;
  match (match f with
         | Some e => inl e
         | None => from_option inr (inl ECLOSED) (fs_store (db_dir h) (db_name h) fs0)
         end) with
  | inl e =>
      emit (EvDb (Iterator (db_dir h) (db_name h)) (Some (Cause e)));;
      mret (inl (Cause e))
  | inr (_, kv) =>
      emit (EvDb (Iterator (db_dir h) (db_name h)) None);;
      mret (inr (iter_records kv))
  end.

Definition db_NewBatch (h : DB) : M Batch :=
  emit (EvDb (NewBatch (db_dir h) (db_name h)) None);; mret (mkBatch h []).

(** [batch.Set(key, value)]: the batch with the write added, or the error. *)
Definition batch_Set (b : Batch) (key value : bytes) : M (error + Batch) :=
  f ← next_fault;
  match f with
  | Some e => emit (EvDb (BatchSet key value) (Some (Cause e)));; mret (inl (Cause e))
  | None => emit (EvDb (BatchSet key value) None);;
            mret (inr (mkBatch (batch_db b) (batch_ops b ++ [(key, value)])))
  end.

(** The writes of a batch applied to the content of a store, in order. *)
Definition apply_batch (ops : list record) (kv : KV) : KV :=
  foldl (λ m r, <[r.1 := r.2]> m) kv ops.

(** Modelled from the spec: [commitSync] makes the writes of the batch
    durable in the store. *)
Definition fs_commit (d : dir) (name : string) (ops : list record) (f : FS) : errno + FS :=
  match get_dir d f with
  | None => inl ECLOSED
  | Some m =>
      match m !! store_file name with
      | Some (EStore b kv) =>
          inr (set_dir d (Some (<[store_file name := EStore b (apply_batch ops kv)]> m)) f)
      | _ => inl ECLOSED
      end
  end.

Definition batch_WriteSync (b : Batch) : M (option error) :=
  let d := db_dir (batch_db b) in
  let name := db_name (batch_db b) in
  f ← next_fault;
  fs0 ← get_fs;
  match (match f with Some e => inl e | None => fs_commit d name (batch_ops b) fs0 end) with
  | inl e => emit (EvDb (WriteSync d name (batch_ops b)) (Some (Cause e)));;
             mret (Some (Cause e))
  | inr fs1 => put_fs fs1;; emit (EvDb (WriteSync d name (batch_ops b)) None);;
               mret None
  end.

(** A call that only releases a resource; it returns an error or [nil]. *)
Definition release (op : DbOp) : M (option error) :=
  f ← next_fault;
  emit (EvDb op (Cause <$> f));; mret (Cause <$> f).

Definition batch_Close (b : Batch) : M (option error) := release BatchClose.
Definition iter_Close : M (option error) := release IterClose.
Definition db_Close (h : DB) : M (option error) :=
  release (DBClose (db_dir h) (db_name h)).

(** ** Time, tickers, goroutines and channels *)

(** [time.Now()]: the next reading of the clock. *)
Definition time_Now : M Z :=
  λ w, let t := hd 0 (clock w) in
       (Val t, with_trace (trace w ++ [EvNow t]) (with_clock (tl (clock w)) w)).

(** [time.Since(t)] is [time.Now().Sub(t)]. *)
Definition time_Since (start : Z) : M Z :=
  now ← time_Now; mret (now - start).

(** [time.NewTicker]: a new active ticker. *)
Definition time_NewTicker : M nat :=
  λ w, let id := length (tickers w) in
       (Val id, with_trace (trace w ++ [EvNewTicker id])
                  (with_tickers (tickers w ++ [true]) w)).

(** [ticker.Stop()] *)
Definition ticker_Stop (id : nat) : M unit :=
  λ w, (Val tt, with_trace (trace w ++ [EvTickerStop id])
                  (with_tickers (<[id := false]> (tickers w)) w)).

(** The cases of the [select] of the progress goroutine. *)
Inductive select_case := RecvProgress (count : Z) | RecvTick.

(** One turn of the loop of the progress goroutine of [migrateDB]: what it
    prints and its status afterwards.  The loop is [for { select {...} }]:
    no case leaves it. *)
Definition reporter (totalCount : Z) (c : select_case) : Event * gstatus :=
  match c with
  | RecvProgress count => (EvPrintf "\rMigrated %d records..." [AInt count], Running)
  | RecvTick => (EvPrintf "\rMigrated %d records..." [AInt totalCount], Running)
  end.

(** [go func() {...}()]: starts the goroutine. *)
Definition go_reporter : M nat :=
  λ w, let id := length (goroutines w) in
       (Val id, with_trace (trace w ++ [EvGo id])
                  (with_goroutines (goroutines w ++ [Running]) w)).

(** [progressChan <- count] on the unbuffered channel: the send completes
    when the goroutine receives, and the goroutine then takes one turn of
    its loop; with no goroutine left to receive, the send blocks forever. *)
Definition chan_send (g : nat) (count : Z) : M unit :=
  λ w, match goroutines w !! g with
       | Some Running =>
           let '(ev, st) := reporter count (RecvProgress count) in
           (Val tt, with_trace (trace w ++ [EvSend g count; ev])
                      (with_goroutines (<[g := st]> (goroutines w)) w))
       | _ => (Hang, w)
       end.

(** ** Standard input and output *)

Definition Printf (format : string) (args : list Arg) : M unit :=
  emit (EvPrintf format args).

Definition Println (args : list Arg) : M unit :=
  emit (EvPrintln args).

Definition newline : string := String (ascii_of_nat 10) EmptyString.

(** [reader.ReadString('\n')]: the next line with its delimiter, or the
    error at end of file. *)
Definition ReadString : M (error + string) :=
  λ w, match stdin w with
       | [] => (Val (inl (Cause EOF)), with_trace (trace w ++ [EvReadString None]) w)
       | line :: rest =>
           (Val (inr (line ++ newline)%string),
            with_trace (trace w ++ [EvReadString (Some line)]) (with_stdin rest w))
       end.

(** [strings.ToLower] on ASCII text. *)
Definition lower_ascii (c : ascii) : ascii :=
  let n := nat_of_ascii c in
  if ((65 <=? n) && (n <=? 90))%nat then ascii_of_nat (n + 32) else c.

Fixpoint ToLower (s : string) : string :=
  match s with
  | EmptyString => EmptyString
  | String c s' => String (lower_ascii c) (ToLower s')
  end.

(** The ASCII white space [strings.TrimSpace] removes. *)
Definition is_space (c : ascii) : bool :=
  let n := nat_of_ascii c in
  ((n =? 32) || ((9 <=? n) && (n <=? 13)))%nat.

Fixpoint trim_left (s : string) : string :=
  match s with
  | EmptyString => EmptyString
  | String c s' => if is_space c then trim_left s' else s
  end.

Fixpoint trim_right (s : string) : string :=
  match s with
  | EmptyString => EmptyString
  | String c s' =>
      match trim_right s' with
      | EmptyString => if is_space c then EmptyString else String c EmptyString
      | t => String c t
      end
  end.

(** [strings.TrimSpace] on ASCII text. *)
Definition TrimSpace (s : string) : string := trim_right (trim_left s).

(** ** The program *)

(** [os.Exit(code)] *)
Definition os_Exit {A} (code : Z) : M A := λ w, (Exit code, w).

(** [fatalf]: prints the message and exits with status 1. *)
Definition fatalf {A} (format : string) (args : list Arg) : M A :=
  Printf format args;; os_Exit 1.

(** A loop that never ends. *)
Definition forever {A} : M A := λ w, (Hang, w).

(** The loop of [promptYesNo].  [pending] is the input not read yet.  At end
    of file [ReadString] fails on every turn and the loop [continue]s for
    ever. *)
Fixpoint promptLoop (question : string) (pending : list string) : M bool :=
  Printf "%s (y/n): " [AStr question];;
  r ← ReadString;
  match r with
  | inl err =>
      Println [AStr "Error reading input:"; AErr err];;
      match pending with
      | [] => forever
      | _ :: pending' => promptLoop question pending'
      end
  | inr input =>
      let input := TrimSpace (ToLower input) in
      if bool_decide (input = "y" ∨ input = "yes") then mret true
      else if bool_decide (input = "n" ∨ input = "no") then mret false
      else Println [AStr "Invalid input. Please enter 'y' or 'n'."];;
           match pending with
           | [] => forever
           | _ :: pending' => promptLoop question pending'
           end
  end.

Definition promptYesNo (question : string) : M bool :=
  λ w, promptLoop question (stdin w) w.

(** Go's [int] is 64 bits wide here: [totalCount++] wraps around. *)
Definition wrap_int (z : Z) : Z := (z + 2 ^ 63) mod 2 ^ 64 - 2 ^ 63.

(** The [for ; iter.Valid(); iter.Next()] loop of [migrateDB] over the
    records the iterator still has to yield.  It returns the error it stops
    on, or the open batch and the count when the iterator is exhausted. *)
Fixpoint migrateLoop (newDB : DB) (progressChan : nat) (iter : list record)
    (batch : Batch) (totalCount : Z) : M (error + Batch * Z) :=
  match iter with
  | [] => mret (inr (batch, totalCount))
  | (key, value) :: iter' =>
      r ← batch_Set batch key value;
      match r with
      | inl err => mret (inl (Errorf "batch set: %w" [] err))
      | inr batch =>
          let totalCount := wrap_int (totalCount + 1) in
          if bool_decide (Z.rem totalCount 10000 = 0) then
            chan_send progressChan totalCount;;
            err ← batch_WriteSync batch;
            match err with
            | Some err => mret (inl (Errorf "commit batch: %w" [] err))
            | None =>
                err ← batch_Close batch;
                match err with
                | Some err => mret (inl (Errorf "close batch: %w" [] err))
                | None =>
                    batch ← db_NewBatch newDB;
                    migrateLoop newDB progressChan iter' batch totalCount
                end
            end
          else migrateLoop newDB progressChan iter' batch totalCount
      end
  end.

Definition migrateDB (dbName : string) (dataDir : dir) (oldDBBackend : BackendType)
    (tempDir : dir) : M (option error) :=
  r ← db_NewDB ReadMode dbName oldDBBackend dataDir;
  match r with
  | inl err => mret (Some (Errorf "open %s: %w" [dbName] err))
  | inr oldDB =>
  defer (db_Close oldDB;; mret tt) (
    r ← db_NewDB WriteMode dbName PebbleDBBackend tempDir;
    match r with
    | inl err => mret (Some (Errorf "open %s: %w" [dbName] err))
    | inr newDB =>
    defer (db_Close newDB;; mret tt) (
      (* Start migration *)
      r ← db_Iterator oldDB;
      match r with
      | inl err => mret (Some (Errorf "iterator: %w" [] err))
      | inr iter =>
      defer (iter_Close;; mret tt) (
        batch ← db_NewBatch newDB;
        let totalCount := 0 in
        progressTicker ← time_NewTicker;
        defer (ticker_Stop progressTicker) (
          (* Goroutine to display progress *)
          progressChan ← go_reporter;
          startTime ← time_Now;
          r ← migrateLoop newDB progressChan iter batch totalCount;
          match r with
          | inl err => mret (Some err)
          | inr (batch, totalCount) =>
              err ← batch_WriteSync batch;
              match err with
              | Some err => mret (Some (Errorf "commit batch: %w" [] err))
              | None =>
                  err ← batch_Close batch;
                  match err with
                  | Some err => mret (Some (Errorf "close batch: %w" [] err))
                  | None =>
                      (* Final message *)
                      duration ← time_Since startTime;
                      Printf "\nMigration completed successfully! %d records migrated in %v\n"
                        [AInt totalCount; ADuration duration];;
                      mret None
                  end
              end
          end))
      end)
    end)
  end.

Definition cometBFTDatabases : list string :=
  ["blockstore"; "state"; "tx_index"; "evidence"].

Definition lightClientDBName : string := "light-client-db".

(** 0. Create the temporary directory *)
Definition createTempDir (tempDir : dir) : M unit :=
  err ← os_MkdirAll tempDir;
  match err with
  | Some err => fatalf "Failed to create the temporary directory: %v" [AErr err]
  | None => mret tt
  end.

(** The body of the two places of [main] that migrate a database. *)
Definition migrateOrDie (dbName : string) (dataDir : dir) (oldDBBackend : BackendType)
    (tempDir : dir) : M unit :=
  Printf "Migrating %s database...\n" [AStr dbName];;
  err ← migrateDB dbName dataDir oldDBBackend tempDir;
  match err with
  | Some err =>
      fatalf "Failed to migrate %s database: %v. Please fix the error and restart."
        [AStr dbName; AErr err]
  | None => mret tt
  end.

(** 1. Migrate common CometBFT databases *)
Definition migrateCommon (dataDir : dir) (oldDBBackend : BackendType) (tempDir : dir)
  : M unit :=
  forEach cometBFTDatabases (λ dbName, migrateOrDie dbName dataDir oldDBBackend tempDir).

(** 2. Migrate the light client database, if it exists *)
Definition migrateLightClient (dataDir : dir) (oldDBBackend : BackendType)
    (tempDir : dir) : M unit :=
  err ← os_Stat (Join dataDir lightClientDBName);
  match err with
  | None => migrateOrDie lightClientDBName dataDir oldDBBackend tempDir
  | Some _ => mret tt
  end.

(** The body of the loop over the entries of the temporary directory. *)
Definition moveEntry (dataDir tempDir : dir) (entry : DirEntry) : M unit :=
  if IsDir entry then (* Only process folders *)
    let srcPath := Join tempDir (Name entry) in
    let destPath := Join dataDir (Name entry) in
    (* If destination folder already exists, remove it first *)
    (err ← os_Stat destPath;
     match err with
     | None =>
         Printf "Replacing %s\n" [APath destPath];;
         err ← os_RemoveAll destPath;
         match err with
         | Some err => fatalf "remove all: %v" [AErr err]
         | None => mret tt
         end
     | Some _ => mret tt
     end);;
    err ← os_Rename srcPath destPath;
    match err with
    | Some err => fatalf "rename %s: %v" [AStr (Name entry); AErr err]
    | None => mret tt
    end;;
    Printf "Moved %s -> %s\n" [APath srcPath; APath destPath]
  else mret tt.

(** 3. Copy the migrated data to the original directory. *)
Definition copyMigrated (dataDir tempDir : dir) : M unit :=
  confirmed ← promptYesNo "Do you have a backup of the data directory?";
  if confirmed : bool then
    Println [AStr "Copying the migrated data to the original directory..."];;
    r ← os_ReadDir tempDir;
    match r with
    | inl err => fatalf "read temp_dir: %v" [AErr err]
    | inr entries => forEach entries (moveEntry dataDir tempDir)
    end
  else mret tt.

(** 4. Remove the temporary directory *)
Definition removeTempDir (tempDir : dir) : M unit :=
  err ← os_RemoveAll (tempDir, None);
  match err with
  | Some err => fatalf "Failed to remove the temporary directory: %v" [AErr err]
  | None => mret tt
  end.

(** [main], with the values of the flags: [data_dir] and [temp_dir] are the
    two directories of the world, [old_db_backend] is a parameter. *)
Definition main (oldDBBackend : BackendType) : M unit :=
  let dataDir := DataDir in
  let tempDir := TempDir in
  createTempDir tempDir;;
  migrateCommon dataDir oldDBBackend tempDir;;
  migrateLightClient dataDir oldDBBackend tempDir;;
  copyMigrated dataDir tempDir;;
  removeTempDir tempDir;;
  Println [AStr "Migration completed successfully!"].

(** The exit status of the process: 0 when [main] returns. *)
Definition exit_status (r : Res unit) : option Z :=
  match r with
  | Val _ => Some 0
  | Exit code => Some code
  | Hang => None
  end.

(** ** Observations on traces *)

(** The batches committed, in order. *)
Definition commit_of (e : Event) : option (list record) :=
  match e with
  | EvDb (WriteSync _ _ batch) None => Some batch
  | _ => None
  end.

Definition commits (t : list Event) : list (list record) := omap commit_of t.

(** The events after the first [n] of a trace. *)
Definition since (w w' : World) : list Event := drop (length (trace w)) (trace w').

(** Failed calls whose error the program treats as fatal: the errors of
    [os.Stat] and of the deferred [Close] calls are not among them. *)
Definition fatal_ev (e : Event) : bool :=
  match e with
  | EvDb (NewDB _ _ _ | Iterator _ _ | BatchSet _ _ | WriteSync _ _ _ | BatchClose) (Some _) => true
  | EvFs (MkdirAll _ | ReadDir _ | RemoveAll _ | Rename _ _) (Some _) => true
  | _ => false
  end.

(** Failed calls into the storage library that end a migration. *)
Definition migration_error_ev (e : Event) : bool :=
  match e with
  | EvDb (NewDB _ _ _ | Iterator _ _ | BatchSet _ _ | WriteSync _ _ _ | BatchClose) (Some _) => true
  | _ => false
  end.

(** The deferred calls that run when [migrateDB] returns. *)
Definition wrapup_ev (e : Event) : bool :=
  match e with
  | EvTickerStop _ | EvDb IterClose _ | EvDb (DBClose _ _) _ => true
  | _ => false
  end.

(** The error a call returned. *)
Definition ev_error (e : Event) : option error :=
  match e with
  | EvFs _ err | EvDb _ err => err
  | _ => None
  end.

(** A trace without fatal failure. *)
Definition quiet (d : list Event) : Prop := Forall (λ e, fatal_ev e = false) d.

(** The errors a failing call can return: a call into [os] fails with the
    error of the call, a call into the storage library with a cause. *)
Definition canonical (e : Event) : Prop :=
  match e with
  | EvFs op (Some err) => ∃ c, err = fs_error op c
  | EvDb _ (Some err) => ∃ c, err = Cause c
  | _ => True
  end.

(** The message [main] passes to [fatalf] for a fatal failure. *)
Definition reports (e : Event) (format : string) (args : list Arg) : Prop :=
  match e with
  | EvFs (MkdirAll _) (Some err) =>
      format = "Failed to create the temporary directory: %v" ∧ args = [AErr err]
  | EvFs (ReadDir _) (Some err) =>
      format = "read temp_dir: %v" ∧ args = [AErr err]
  | EvFs (RemoveAll (_, Some _)) (Some err) =>
      format = "remove all: %v" ∧ args = [AErr err]
  | EvFs (RemoveAll (_, None)) (Some err) =>
      format = "Failed to remove the temporary directory: %v" ∧ args = [AErr err]
  | EvFs (Rename (_, Some name) _) (Some err) =>
      format = "rename %s: %v" ∧ args = [AStr name; AErr err]
  | EvDb _ (Some cause) =>
      ∃ dbName err,
        format = "Failed to migrate %s database: %v. Please fix the error and restart." ∧
        args = [AStr dbName; AErr err] ∧ root_cause err = cause ∧
        ∃ f a c, err = Errorf f a (Cause c)
  | _ => False
  end.

(** The trace of a run that [fatalf] ended: nothing fatal before the failed
    call [e], after it only the deferred calls of [migrateDB] (none when the
    failure is not one of a migration), and then the message. *)
Definition died (d : list Event) (e : Event) (format : string) (args : list Arg) : Prop :=
  ∃ pre post, d = pre ++ e :: post ++ [EvPrintf format args] ∧ quiet pre ∧
    fatal_ev e = true ∧ Forall (λ x, wrapup_ev x = true) post ∧
    reports e format args ∧ canonical e ∧
    (migration_error_ev e = false → post = []).

(** What a part of [main] leaves behind: a quiet trace when it returns (or
    hangs), and the trace of a fatal exit with status 1 otherwise. *)
Definition outcome {A} (r : Res A) (d : list Event) : Prop :=
  match r with
  | Val _ | Hang => quiet d
  | Exit code => code = 1 ∧ ∃ e format args, died d e format args
  end.

(** [w'] comes from [w] by the events [d]; the file system, the tickers and
    the goroutines are as given, the operator's input is untouched. *)
Record upd (w w' : World) (d : list Event) (f : FS) (tk : list bool)
    (gs : list gstatus) : Prop := mkUpd {
  upd_trace : trace w' = trace w ++ d;
  upd_fs : fs w' = f;
  upd_stdin : stdin w' = stdin w;
  upd_tickers : tickers w' = tk;
  upd_goroutines : goroutines w' = gs
}.

(** [w'] comes from [w] by the events [d] and nothing else that matters. *)
Abbreviation calm w w' d := (upd w w' d (fs w) (tickers w) (goroutines w)).

(** A commit applied to the file system; a commit that fails changes nothing. *)
Definition commit_or_keep (d : dir) (name : string) (f : FS) (ops : list record) : FS :=
  match fs_commit d name ops f with
  | inr f1 => f1
  | inl _ => f
  end.

(** The errors [migrateDB] returns: a cause wrapped by [fmt.Errorf]. *)
Definition wrapped (err : error) : Prop :=
  ∃ format args c, err = Errorf format args (Cause c).

(** A trace that ends with a failed call of the migration; [err] is the
    error [migrateDB] builds from it. *)
Definition stopped (d : list Event) (e : Event) (err : error) : Prop :=
  ∃ pre, d = pre ++ [e] ∧ quiet pre ∧ migration_error_ev e = true ∧
         ev_error e = Some (root_cause err) ∧ wrapped err.


(** The trace of a migration that failed: it stops at the failed call, and
    only the deferred calls follow. *)
Definition failed (d : list Event) (e : Event) (err : error) : Prop :=
  ∃ d0 post, d = d0 ++ post ∧ stopped d0 e err ∧ Forall (λ x, wrapup_ev x = true) post.

(** The records added to batches, in order. *)
Definition set_of (e : Event) : option record :=
  match e with
  | EvDb (BatchSet key value) None => Some (key, value)
  | _ => None
  end.

Definition sets (t : list Event) : list record := omap set_of t.

(** The format of the final message of [migrateDB]. *)
Definition summary_format : string :=
  "\nMigration completed successfully! %d records migrated in %v\n".

(** The paths a call into [os] is about. *)
Definition op_paths (op : FsOp) : list path :=
  match op with
  | MkdirAll d | ReadDir d => [(d, None)]
  | Stat p | RemoveAll p => [p]
  | Rename src dst => [src; dst]
  end.

(** Whether a call is a [Stat]. *)
Definition is_stat (op : FsOp) : bool :=
  match op with
  | Stat _ => true
  | _ => false
  end.

(** ** Observations on the parts of [main] *)

(** The question [main] asks. *)
Definition backup_question : string := "Do you have a backup of the data directory?".

(** [w'] comes from [w] by the events [d], with the operator's input and
    the data directory untouched. *)
Definition steady (w w' : World) (d : list Event) : Prop :=
  trace w' = trace w ++ d ∧ stdin w' = stdin w ∧ data_dir (fs w') = data_dir (fs w).

(** The events of the dialogue with the operator. *)
Definition prompt_ev (e : Event) : bool :=
  match e with
  | EvPrintf _ _ | EvPrintln _ | EvReadString _ => true
  | _ => false
  end.

(** What [promptYesNo] makes of a line of input. *)
Definition classify (line : string) : option bool :=
  let input := TrimSpace (ToLower (line ++ newline)%string) in
  if bool_decide (input = "y" ∨ input = "yes") then Some true
  else if bool_decide (input = "n" ∨ input = "no") then Some false
  else None.

(** The answer [promptYesNo] returns on the lines of input: the first line
    that is a yes or a no decides; without one it never returns. *)
Fixpoint answer (input : list string) : Res bool :=
  match input with
  | [] => Hang
  | line :: rest =>
      match classify line with
      | Some b => Val b
      | None => answer rest
      end
  end.

(** The entry of a directory under a name. *)
Definition entry_at (d : dir) (name : string) (f : FS) : option entry :=
  get_dir d f ≫= (.!! name).

(** The source of a rename. *)
Definition renamed_from (e : Event) : option path :=
  match e with
  | EvFs (Rename src _) _ => Some src
  | _ => None
  end.

(** What [main] does for one entry of the staging directory when nothing
    fails: nothing for a file; for a directory the [Stat] of its namesake in
    the data directory, which is removed when it is found, and then the
    rename. *)
Definition swap_segment (entry : DirEntry) (seg : list Event) : Prop :=
  let src := Join TempDir (Name entry) in
  let dst := Join DataDir (Name entry) in
  if IsDir entry then
    seg = [EvFs (Stat dst) None; EvPrintf "Replacing %s\n" [APath dst];
           EvFs (RemoveAll dst) None; EvFs (Rename src dst) None;
           EvPrintf "Moved %s -> %s\n" [APath src; APath dst]] ∨
    ∃ err, seg = [EvFs (Stat dst) (Some err); EvFs (Rename src dst) None;
                  EvPrintf "Moved %s -> %s\n" [APath src; APath dst]]
  else seg = [].

(** A fatal exit of a part of [main] that does not migrate. *)
Definition outcome_fs {A} (r : Res A) (d : list Event) : Prop :=
  match r with
  | Val _ | Hang => quiet d
  | Exit code => code = 1 ∧ ∃ e format args, died d e format args ∧ migration_error_ev e = false
  end.

(** What a run of [main] leaves behind. *)
Definition main_post (w : World) (r : Res unit) (w' : World) (d : list Event) : Prop :=
  trace w' = trace w ++ d ∧
  match r with
  | Val _ | Hang => quiet d
  | Exit c => c = 1 ∧ ∃ e f a, died d e f a ∧
      (migration_error_ev e = true → data_dir (fs w') = data_dir (fs w))
  end ∧
  (answer (stdin w) = Val false →
     data_dir (fs w') = data_dir (fs w) ∧ (r = Val tt → temp_dir (fs w') = None)).

(** ** Sample worlds *)

Definition key_a : bytes := [x61]%byte.
Definition key_b : bytes := [x62]%byte.
Definition val_1 : bytes := [x31]%byte.
Definition val_2 : bytes := [x32]%byte.

(** A data directory with one store of two records and no staging
    directory. *)
Definition small_world : World :=
  mkWorld (mkFS (Some {[ "blockstore.db" :=
                          EStore GoLevelDBBackend {[ key_a := val_1; key_b := val_2 ]} ]})
                None)
          [] [100; 250] [] [] [] [].

(** The same data directory, now without the key [b], and a staging
    directory in which an earlier run left the store with the key [b]. *)
Definition stale_world : World :=
  mkWorld (mkFS (Some {[ "blockstore.db" := EStore GoLevelDBBackend {[ key_a := val_1 ]} ]})
                (Some {[ "blockstore.db" := EStore PebbleDBBackend {[ key_b := val_2 ]} ]}))
          [] [] [] [] [] [].

(** The data directory of a node: the four stores and a file. *)
Definition node_data : gmap string entry :=
  {[ "blockstore.db" := EStore GoLevelDBBackend {[ key_a := val_1; key_b := val_2 ]};
     "state.db" := EStore GoLevelDBBackend {[ key_a := val_2 ]};
     "tx_index.db" := EStore GoLevelDBBackend ∅;
     "evidence.db" := EStore GoLevelDBBackend ∅;
     "cs.wal" := EFile val_1 ]}.

(** A node with the operator's input and the failures the environment
    injects. *)
Definition node_world (input : list string) (flt : list (option errno)) : World :=
  mkWorld (mkFS (Some node_data) None) flt [] input [] [] [].

(** The node with a light client database. *)
Definition light_node_world (input : list string) (flt : list (option errno)) : World :=
  mkWorld (mkFS (Some (<[ "light-client-db" := EDir ∅ ]>
                       (<[ "light-client-db.db" := EStore GoLevelDBBackend {[ key_b := val_1 ]} ]>
                          node_data)))
                None) flt [] input [] [] [].

(** The [Stat] of the light client database fails: the calls before it are
    the [MkdirAll] and those of the four migrations. *)
Definition stat_fault : list (option errno) := replicate 36 None ++ [Some EACCES].

(** The rename of the first staged store fails. *)
Definition rename_fault : list (option errno) := replicate 40 None ++ [Some EACCES].

(** A world before the swap: the staging directory holds two migrated stores
    and a file, the data directory the old version of one of the stores and
    a file; the operator confirms. *)
Definition swap_world : World :=
  mkWorld (mkFS (Some {[ "blockstore.db" := EStore GoLevelDBBackend {[ key_a := val_1 ]};
                         "cs.wal" := EFile val_1 ]})
                (Some {[ "blockstore.db" :=
                           EStore PebbleDBBackend {[ key_a := val_1; key_b := val_2 ]};
                         "state.db" := EStore PebbleDBBackend {[ key_a := val_2 ]};
                         "LOCK" := EFile val_2 ]}))
          [] [] ["yes"] [] [] [].

(** The commit of the only batch of the store [state] fails. *)
Definition commit_fault : list (option errno) := replicate 15 None ++ [Some ENOSPC].

(** ** Reasoning about programs *)

Lemma bind_inv {A B} (m : M A) (f : A → M B) w r w' :
  (m ≫= f) w = (r, w') →
  (∃ a w1, m w = (Val a, w1) ∧ f a w1 = (r, w')) ∨
  (∃ c, m w = (Exit c, w') ∧ r = Exit c) ∨
  (m w = (Hang, w') ∧ r = Hang).
Proof.
  unfold mbind, M_bind. destruct (m w) as [[a|c|] w1]; intros H.
  - left. eauto.
  - right. left. exists c. by simplify_eq.
  - right. right. by simplify_eq.
Qed.

Lemma bind_val {A B} (m : M A) (f : A → M B) w a w1 :
  m w = (Val a, w1) → (m ≫= f) w = f a w1.
Proof. unfold mbind, M_bind. by intros ->. Qed.

Lemma upd_refl w : calm w w [].
Proof. split; by rewrite ?app_nil_r. Qed.

Lemma upd_trans w w1 w2 d1 d2 f1 tk1 gs1 f2 tk2 gs2 :
  upd w w1 d1 f1 tk1 gs1 → upd w1 w2 d2 f2 tk2 gs2 →
  upd w w2 (d1 ++ d2) f2 tk2 gs2.
Proof.
  intros [] []. split; try congruence.
  rewrite app_assoc. congruence.
Qed.

Lemma calm_trans w w1 w2 d1 d2 f tk gs :
  upd w w1 d1 f tk gs → calm w1 w2 d2 → upd w w2 (d1 ++ d2) f tk gs.
Proof.
  intros H1 H2. pose proof (upd_trans _ _ _ _ _ _ _ _ _ _ _ H1 H2) as H.
  destruct H1. by rewrite upd_fs0, upd_tickers0, upd_goroutines0 in H.
Qed.

Lemma emit_run e w r w' :
  emit e w = (r, w') → r = Val tt ∧ calm w w' [e].
Proof. unfold emit. intros; simplify_eq. by split. Qed.

Lemma Printf_run format args w r w' :
  Printf format args w = (r, w') → r = Val tt ∧ calm w w' [EvPrintf format args].
Proof. apply emit_run. Qed.

Lemma Println_run args w r w' :
  Println args w = (r, w') → r = Val tt ∧ calm w w' [EvPrintln args].
Proof. apply emit_run. Qed.

Lemma fatalf_run {A} format args w (r : Res A) w' :
  fatalf format args w = (r, w') → r = Exit 1 ∧ calm w w' [EvPrintf format args].
Proof. unfold fatalf, Printf, emit, os_Exit, mbind, M_bind. intros; simplify_eq. by split. Qed.

(** A call into [os] fails with the error of the call, and then changes
    nothing; or it succeeds and the file system is as the call leaves it. *)
Lemma os_call_run op sem w r w' :
  os_call op sem w = (r, w') →
  (∃ e, r = Val (Some (fs_error op e)) ∧ calm w w' [EvFs op (Some (fs_error op e))] ∧
        (default None (head (faults w)) = Some e ∨
         default None (head (faults w)) = None ∧ sem (fs w) = inl e)) ∨
  (∃ f1, r = Val None ∧ default None (head (faults w)) = None ∧ sem (fs w) = inr f1 ∧
         upd w w' [EvFs op None] f1 (tickers w) (goroutines w)).
Proof.
  unfold os_call, next_fault, get_fs, put_fs, emit, mbind, M_bind, mret, M_ret. simpl.
  destruct (default None (head (faults w))) as [e|] eqn:Hf.
  - intros; simplify_eq. left. exists e. split; [done|]. split; [by split| by left].
  - destruct (sem (fs w)) as [e|f1] eqn:Hs; simpl; intros; simplify_eq.
    + left. exists e. split; [done|]. split; [by split| by right].
    + right. exists f1. split_and!; try done; by split.
Qed.

Lemma os_ReadDir_run d w r w' :
  os_ReadDir d w = (r, w') →
  (∃ e, r = Val (inl (fs_error (ReadDir d) e)) ∧
        calm w w' [EvFs (ReadDir d) (Some (fs_error (ReadDir d) e))]) ∨
  (∃ m, r = Val (inr (dir_entries m)) ∧ get_dir d (fs w) = Some m ∧
        calm w w' [EvFs (ReadDir d) None]).
Proof.
  unfold os_ReadDir, next_fault, get_fs, emit, mbind, M_bind, mret, M_ret. simpl.
  destruct (default None (head (faults w))) as [e|] eqn:Hf.
  - intros; simplify_eq. left. exists e. split; [done| by split].
  - destruct (get_dir d (fs w)) as [m|] eqn:Hs; simpl; intros; simplify_eq.
    + right. exists m. split_and!; try done; by split.
    + left. exists ENOENT. split; [done| by split].
Qed.

Lemma db_NewDB_run mode name backend d w r w' :
  db_NewDB mode name backend d w = (r, w') →
  (∃ e, r = Val (inl (Cause e)) ∧
        calm w w' [EvDb (NewDB name backend d) (Some (Cause e))]) ∨
  (∃ f1, r = Val (inr (mkDB d name)) ∧ default None (head (faults w)) = None ∧
         fs_open mode name backend d (fs w) = inr f1 ∧
         upd w w' [EvDb (NewDB name backend d) None] f1 (tickers w) (goroutines w)).
Proof.
  unfold db_NewDB, next_fault, get_fs, put_fs, emit, mbind, M_bind, mret, M_ret. simpl.
  destruct (default None (head (faults w))) as [e|] eqn:Hf.
  - intros; simplify_eq. left. exists e. split; [done| by split].
  - destruct (fs_open mode name backend d (fs w)) as [e|f1] eqn:Hs; simpl; intros; simplify_eq.
    + left. exists e. split; [done| by split].
    + right. exists f1. split_and!; try done; by split.
Qed.

Lemma db_Iterator_run h w r w' :
  db_Iterator h w = (r, w') →
  (∃ e, r = Val (inl (Cause e)) ∧
        calm w w' [EvDb (Iterator (db_dir h) (db_name h)) (Some (Cause e))]) ∨
  (∃ b kv, r = Val (inr (iter_records kv)) ∧
        fs_store (db_dir h) (db_name h) (fs w) = Some (b, kv) ∧
        calm w w' [EvDb (Iterator (db_dir h) (db_name h)) None]).
Proof.
  unfold db_Iterator, next_fault, get_fs, emit, mbind, M_bind, mret, M_ret. simpl.
  destruct (default None (head (faults w))) as [e|] eqn:Hf.
  - intros; simplify_eq. left. exists e. split; [done| by split].
  - destruct (fs_store (db_dir h) (db_name h) (fs w)) as [[b kv]|] eqn:Hs;
      simpl; intros; simplify_eq.
    + right. exists b, kv. split_and!; try done; by split.
    + left. exists ECLOSED. split; [done| by split].
Qed.

Lemma db_NewBatch_run h w r w' :
  db_NewBatch h w = (r, w') →
  r = Val (mkBatch h []) ∧ calm w w' [EvDb (NewBatch (db_dir h) (db_name h)) None].
Proof.
  unfold db_NewBatch, emit, mbind, M_bind, mret, M_ret. intros; simplify_eq.
  by split.
Qed.

Lemma batch_Set_run b key value w r w' :
  batch_Set b key value w = (r, w') →
  (∃ e, r = Val (inl (Cause e)) ∧ calm w w' [EvDb (BatchSet key value) (Some (Cause e))]) ∨
  (r = Val (inr (mkBatch (batch_db b) (batch_ops b ++ [(key, value)]))) ∧
   calm w w' [EvDb (BatchSet key value) None]).
Proof.
  unfold batch_Set, next_fault, emit, mbind, M_bind, mret, M_ret. simpl.
  destruct (default None (head (faults w))) as [e|] eqn:Hf; intros; simplify_eq.
  - left. exists e. split; [done| by split].
  - right. split; [done| by split].
Qed.

Lemma batch_WriteSync_run b w r w' :
  batch_WriteSync b w = (r, w') →
  let ev := EvDb (WriteSync (db_dir (batch_db b)) (db_name (batch_db b)) (batch_ops b)) in
  (∃ e, r = Val (Some (Cause e)) ∧ calm w w' [ev (Some (Cause e))]) ∨
  (∃ f1, r = Val None ∧
         fs_commit (db_dir (batch_db b)) (db_name (batch_db b)) (batch_ops b) (fs w) = inr f1 ∧
         upd w w' [ev None] f1 (tickers w) (goroutines w)).
Proof.
  unfold batch_WriteSync, next_fault, get_fs, put_fs, emit, mbind, M_bind, mret, M_ret. simpl.
  destruct (default None (head (faults w))) as [e|] eqn:Hf.
  - intros; simplify_eq. left. exists e. split; [done| by split].
  - destruct (fs_commit _ _ _ (fs w)) as [e|f1] eqn:Hs; simpl; intros; simplify_eq.
    + left. exists e. split; [done| by split].
    + right. exists f1. split_and!; try done; by split.
Qed.

Lemma release_run op w r w' :
  release op w = (r, w') →
  ∃ o, r = Val (Cause <$> o) ∧ calm w w' [EvDb op (Cause <$> o)].
Proof.
  unfold release, next_fault, emit, mbind, M_bind, mret, M_ret. simpl.
  intros; simplify_eq. eexists. split; [done| by split].
Qed.

Lemma time_Now_run w r w' :
  time_Now w = (r, w') → ∃ t, r = Val t ∧ t = hd 0 (clock w) ∧ calm w w' [EvNow t].
Proof. unfold time_Now. intros; simplify_eq. eexists. split_and!; try done; by split. Qed.

Lemma time_Since_run start w r w' :
  time_Since start w = (r, w') →
  ∃ t, r = Val (t - start) ∧ t = hd 0 (clock w) ∧ calm w w' [EvNow t].
Proof.
  unfold time_Since, time_Now, mbind, M_bind, mret, M_ret. intros; simplify_eq.
  eexists. split_and!; try done; by split.
Qed.

Lemma time_NewTicker_run w r w' :
  time_NewTicker w = (r, w') →
  r = Val (length (tickers w)) ∧
  upd w w' [EvNewTicker (length (tickers w))] (fs w) (tickers w ++ [true]) (goroutines w).
Proof. unfold time_NewTicker. intros; simplify_eq. by split. Qed.

Lemma ticker_Stop_run id w r w' :
  ticker_Stop id w = (r, w') →
  r = Val tt ∧ upd w w' [EvTickerStop id] (fs w) (<[id := false]> (tickers w)) (goroutines w).
Proof. unfold ticker_Stop. intros; simplify_eq. by split. Qed.

Lemma go_reporter_run w r w' :
  go_reporter w = (r, w') →
  r = Val (length (goroutines w)) ∧
  upd w w' [EvGo (length (goroutines w))] (fs w) (tickers w) (goroutines w ++ [Running]).
Proof. unfold go_reporter. intros; simplify_eq. by split. Qed.

Lemma chan_send_run g count w r w' :
  chan_send g count w = (r, w') →
  (r = Val tt ∧ goroutines w !! g = Some Running ∧
   calm w w' [EvSend g count; EvPrintf "\rMigrated %d records..." [AInt count]]) ∨
  (r = Hang ∧ goroutines w !! g ≠ Some Running ∧ w' = w).
Proof.
  unfold chan_send. destruct (goroutines w !! g) as [[]|] eqn:Hg; simpl; intros; simplify_eq.
  - left. split_and!; try done. split; try done. simpl. by apply list_insert_id.
  - by right.
  - by right.
Qed.

Lemma quiet_nil : quiet [].
Proof. constructor. Qed.

Lemma quiet_app d1 d2 : quiet d1 → quiet d2 → quiet (d1 ++ d2).
Proof. apply Forall_app_2. Qed.

Lemma quiet_cons e d : fatal_ev e = false → quiet d → quiet (e :: d).
Proof. by constructor. Qed.

Lemma stopped_app d1 d2 e err : quiet d1 → stopped d2 e err → stopped (d1 ++ d2) e err.
Proof.
  intros Hq (pre & -> & Hpre & He & Herr & Hw). exists (d1 ++ pre).
  split_and!; try done. - by rewrite app_assoc. - by apply quiet_app.
Qed.

Lemma stopped_one e format args c :
  migration_error_ev e = true → ev_error e = Some (Cause c) →
  stopped [e] e (Errorf format args (Cause c)).
Proof.
  intros. exists []. split_and!; try done; [constructor|]. by eexists _, _, _.
Qed.


Lemma commits_app d1 d2 : commits (d1 ++ d2) = commits d1 ++ commits d2.
Proof. apply omap_app. Qed.

(** Stepping through a program: splits a bind in hypothesis [H]. *)
Ltac bind_step H :=
  let a := fresh "a" in let w := fresh "w" in let H1 := fresh "Hrun" in
  apply bind_inv in H as [(a & w & H1 & H) | [(? & H1 & ->) | (H1 & ->)]].

Ltac bind_case H :=
  let a := fresh "a" in let w := fresh "w" in let H1 := fresh "Hrun" in
  apply bind_inv in H as [(a & w & H1 & H) | [(? & H1 & ?) | (H1 & ?)]]; simplify_eq.

Ltac open_upd :=
  repeat match goal with
  | H : upd _ _ _ _ _ _ |- _ =>
      let Ht := fresh "Ht" in let Hf := fresh "Hf" in let Hs := fresh "Hs" in
      let Hk := fresh "Hk" in let Hg := fresh "Hg" in
      destruct H as [Ht Hf Hs Hk Hg]
  end.

Ltac chase :=
  repeat match goal with
  | H : trace ?x = _ |- context [trace ?x] => rewrite H
  | H : fs ?x = _ |- context [fs ?x] => rewrite H
  | H : stdin ?x = _ |- context [stdin ?x] => rewrite H
  | H : tickers ?x = _ |- context [tickers ?x] => rewrite H
  | H : goroutines ?x = _ |- context [goroutines ?x] => rewrite H
  end.

Ltac chase_in H0 :=
  repeat match goal with
  | H : fs ?x = _ |- _ => rewrite H in H0
  | H : goroutines ?x = _ |- _ => rewrite H in H0
  | H : tickers ?x = _ |- _ => rewrite H in H0
  end.

Lemma insert_last {A} (l : list A) (x y : A) : <[length l := y]> (l ++ [x]) = l ++ [y].
Proof. induction l as [|a l IH]; simpl; [done|]. by rewrite IH. Qed.

Ltac solve_upd tac :=
  split; [ chase; rewrite <- ?app_assoc; simpl; done
         | simpl; chase; rewrite ?commits_app; simpl; rewrite ?foldl_app; simpl; tac
         | by chase
         | chase; rewrite ?insert_last; done
         | by chase ].

Ltac quiet_tac :=
  repeat first [ assumption | apply quiet_nil | apply quiet_app
               | apply quiet_cons; [reflexivity|] ].

Lemma wrap_int_small z : - 2 ^ 63 ≤ z < 2 ^ 63 → wrap_int z = z.
Proof. intros. unfold wrap_int. rewrite Z.mod_small; lia. Qed.

Lemma count_step_commit c :
  0 ≤ c → c + 1 < 2 ^ 63 → Z.rem (wrap_int (c + 1)) 10000 = 0 →
  wrap_int (c + 1) = c + 1 ∧ c mod 10000 + 1 = 10000 ∧ (c + 1) mod 10000 = 0.
Proof.
  intros H0 H1. rewrite wrap_int_small by lia. rewrite Z.rem_mod_nonneg by lia.
  intros H2. split_and!; try done.
  pose proof (Z.mod_pos_bound c 10000 ltac:(lia)).
  pose proof (Z.div_mod c 10000 ltac:(lia)).
  pose proof (Z.div_mod (c + 1) 10000 ltac:(lia)). lia.
Qed.

Lemma count_step_keep c :
  0 ≤ c → c + 1 < 2 ^ 63 → Z.rem (wrap_int (c + 1)) 10000 ≠ 0 →
  wrap_int (c + 1) = c + 1 ∧ c mod 10000 + 1 = (c + 1) mod 10000.
Proof.
  intros H0 H1. rewrite wrap_int_small by lia. rewrite Z.rem_mod_nonneg by lia.
  intros H2. split; [done|].
  pose proof (Z.mod_pos_bound c 10000 ltac:(lia)).
  pose proof (Z.mod_pos_bound (c + 1) 10000 ltac:(lia)).
  pose proof (Z.div_mod c 10000 ltac:(lia)).
  pose proof (Z.div_mod (c + 1) 10000 ltac:(lia)). lia.
Qed.

Lemma migrateLoop_run newDB g iter : ∀ batch c w r w',
  batch_db batch = newDB →
  migrateLoop newDB g iter batch c w = (r, w') →
  ∃ d, upd w w' d (foldl (commit_or_keep (db_dir newDB) (db_name newDB)) (fs w) (commits d))
             (tickers w) (goroutines w) ∧
    match r with
    | Val (inr (b', c')) =>
        quiet d ∧ batch_db b' = newDB ∧
        concat (commits d) ++ batch_ops b' = batch_ops batch ++ iter ∧
        sets d = iter
    | Val (inl err) => ∃ e, stopped d e err
    | Hang => quiet d ∧ goroutines w !! g ≠ Some Running
    | Exit _ => False
    end ∧
    (0 ≤ c → c + Z.of_nat (length iter) < 2 ^ 63 →
     Z.of_nat (length (batch_ops batch)) = c mod 10000 →
     Forall (λ b, Z.of_nat (length b) = 10000) (commits d) ∧
     match r with
     | Val (inr (b', c')) =>
         c' = c + Z.of_nat (length iter) ∧ Z.of_nat (length (batch_ops b')) = c' mod 10000
     | _ => True
     end).
Proof.
  induction iter as [|[key value] iter IH]; intros batch c w r w' Hb H; simpl in H.
  - unfold mret, M_ret in H. simplify_eq. exists []. split; [apply upd_refl|].
    split; [split; [apply quiet_nil|split; [done|split; [simpl; by rewrite app_nil_r|done]]]|].
    intros. simpl. split; [by apply Forall_nil|split; [lia|done]].
  - bind_step H.
    2,3: by apply batch_Set_run in Hrun as [(? & ? & ?)|[? ?]].
    apply batch_Set_run in Hrun as [(e & ? & Hc)|[? Hc]]; simplify_eq.
    { unfold mret, M_ret in H. simplify_eq. exists [EvDb (BatchSet key value) (Some (Cause e))].
      split; [exact Hc|]. split; [eexists; by apply stopped_one|].
      intros. split; [by apply Forall_nil|done]. }
    case_bool_decide as Hrem.
    + bind_step H.
      * apply chan_send_run in Hrun as [(_ & Hgr & Hc1)|(? & _)]; [|done].
        bind_step H.
        2,3: by apply batch_WriteSync_run in Hrun as [(? & ? & ?)|(? & ? & ?)].
        apply batch_WriteSync_run in Hrun as [(e & ? & Hc2)|(f1 & ? & Hf1 & Hc2)]; simplify_eq.
        { unfold mret, M_ret in H. simplify_eq. eexists (_ :: _ :: _ :: [_]).
          split; [open_upd; solve_upd done|].
          split; [eexists; apply (stopped_app [_;_;_]); [quiet_tac|by apply stopped_one]|].
          intros. split; [by apply Forall_nil|done]. }
        bind_step H.
        2,3: by apply release_run in Hrun as (? & ? & ?).
        apply release_run in Hrun as (o & ? & Hc3); simplify_eq.
        assert (Hlen : 0 ≤ c → c + Z.of_nat (length ((key, value) :: iter)) < 2 ^ 63 →
                  Z.of_nat (length (batch_ops batch)) = c mod 10000 →
                  wrap_int (c + 1) = c + 1 ∧
                  Z.of_nat (length (batch_ops batch ++ [(key, value)])) = 10000 ∧
                  (c + 1) mod 10000 = 0).
        { intros H0 H1 H2. simpl length in H1.
          destruct (count_step_commit c) as (? & ? & ?); [lia..|done|].
          split_and!; try done. rewrite length_app. simpl. lia. }
        destruct o as [e|]; simpl in H.
        { unfold mret, M_ret in H. simplify_eq. eexists (_ :: _ :: _ :: _ :: [_]).
          split.
          { open_upd. simpl in Hf1. chase_in Hf1.
            solve_upd ltac:(unfold commit_or_keep; by rewrite Hf1). }
          split; [eexists; apply (stopped_app [_;_;_;_]); [quiet_tac|by apply stopped_one]|].
          intros H0 H1 H2. destruct (Hlen H0 H1 H2) as (? & ? & ?).
          split; [|done]. unfold commits. simpl. by repeat constructor. }
        bind_step H.
        2,3: by apply db_NewBatch_run in Hrun as (? & ?).
        apply db_NewBatch_run in Hrun as (? & Hc4); simplify_eq.
        apply IH in H as (d & Hu & Hr & Hn); [|done].
        exists ([EvDb (BatchSet key value) None] ++ [EvSend g (wrap_int (c + 1)); EvPrintf "\rMigrated %d records..." [AInt (wrap_int (c + 1))]] ++ [EvDb (WriteSync (db_dir (batch_db batch)) (db_name (batch_db batch)) (batch_ops batch ++ [(key, value)])) None] ++ [EvDb BatchClose None] ++ [EvDb (NewBatch (db_dir (batch_db batch)) (db_name (batch_db batch))) None] ++ d).
        split.
        { open_upd. simpl in Hf1. chase_in Hf1.
          solve_upd ltac:(f_equal; unfold commit_or_keep; by rewrite Hf1). }
        split.
        { destruct r as [[err|[b' c']]| |]; simpl in *.
          -- destruct Hr as (e & Hr). exists e.
             apply (stopped_app [_;_;_;_;_;_]); [quiet_tac|done].
          -- destruct Hr as (Hq & Hb' & Hcat & Hsets). split_and!; try done.
             ++ apply (quiet_app [_;_;_;_;_;_]); quiet_tac.
             ++ simpl in Hcat. unfold commits in *. simpl. rewrite <- ?app_assoc.
                simpl. by rewrite Hcat.
             ++ unfold sets in *. simpl. by rewrite Hsets.
          -- done.
          -- destruct Hr as [Hq Hg']. split; [apply (quiet_app [_;_;_;_;_;_]); quiet_tac|].
             open_upd. chase_in Hg'. done. }
        intros H0 H1 H2. destruct (Hlen H0 H1 H2) as (Hw & Hl & Hm).
        rewrite Hw in Hn. simpl length in H1.
        destruct Hn as [Hall Hres]; [lia | lia | simpl; lia |].
        split; [unfold commits in *; simpl; by constructor|].
        destruct r as [[err|[b' c']]| |]; try done.
        destruct Hres as [-> Hres]. split; [simpl length; lia|done].
      * apply chan_send_run in Hrun as [(? & _)|(? & _)]; done.
      * apply chan_send_run in Hrun as [(? & _)|(_ & Hgr & ->)]; [done|].
        exists [EvDb (BatchSet key value) None]. split; [exact Hc|].
        split; [split; [quiet_tac|]; open_upd; chase_in Hgr; done|].
        intros. split; [by apply Forall_nil|done].
    + apply IH in H as (d & Hu & Hr & Hn); [|done].
      exists ([EvDb (BatchSet key value) None] ++ d). split.
      { open_upd. solve_upd done. }
      split.
      { destruct r as [[err|[b' c']]| |]; simpl in *.
        * destruct Hr as (e & Hr). exists e. apply (stopped_app [_]); [quiet_tac|done].
        * destruct Hr as (Hq & Hb' & Hcat & Hsets). split_and!; try done.
          -- apply quiet_cons; done.
          -- rewrite <- app_assoc in Hcat. done.
          -- unfold sets in *. simpl. by rewrite Hsets.
        * done.
        * destruct Hr as [Hq Hg']. split; [by apply quiet_cons|].
          open_upd. chase_in Hg'. done. }
      intros H0 H1 H2. simpl length in H1.
      destruct (count_step_keep c) as (Hw & Hl); [lia..|done|].
      rewrite Hw in Hn.
      destruct Hn as [Hall Hres]; [lia | lia | simpl; rewrite length_app; simpl; lia |].
      split; [done|].
      destruct r as [[err|[b' c']]| |]; try done.
      destruct Hres as [-> Hres]. split; [simpl length; lia|done].
Qed.

Lemma defer_inv {A} (f : M unit) (body : M A) w r w' :
  defer f body w = (r, w') →
  ∃ rb wb, body w = (rb, wb) ∧
    match rb with
    | Val a => ∃ rf, f wb = (rf, w') ∧
        r = match rf with Val _ => Val a | Exit c => Exit c | Hang => Hang end
    | Exit c => r = Exit c ∧ w' = wb
    | Hang => r = Hang ∧ w' = wb
    end.
Proof.
  unfold defer. intros H. bind_step H.
  - exists (Val a), w0. split; [done|]. unfold mbind, M_bind, mret, M_ret in H.
    destruct (f w0) as [[[]|c|] w2]; simplify_eq; eauto.
  - eexists _, _. split; [done|]. done.
  - eexists _, _. split; [done|]. done.
Qed.

Lemma closer_run op w r w' :
  (release op;; mret tt) w = (r, w') → r = Val tt ∧ ∃ o, calm w w' [EvDb op o].
Proof.
  intros H. bind_step H.
  - apply release_run in Hrun as (o & ? & Hc). unfold mret, M_ret in H. simplify_eq. eauto.
  - by apply release_run in Hrun as (o & ? & Hc).
  - by apply release_run in Hrun as (o & ? & Hc).
Qed.

Lemma fs_open_read name backend d f f1 :
  fs_open ReadMode name backend d f = inr f1 → f1 = f.
Proof.
  unfold fs_open. destruct (get_dir d f) as [m|]; [|done].
  destruct (m !! store_file name) as [[]|]; try done.
  case_decide; by intros [= <-].
Qed.

Lemma failed_intro d1 d2 e err :
  stopped d1 e err → Forall (λ x, wrapup_ev x = true) d2 → failed (d1 ++ d2) e err.
Proof. intros. by exists d1, d2. Qed.

Lemma failed_app d1 d2 e err : quiet d1 → failed d2 e err → failed (d1 ++ d2) e err.
Proof.
  intros Hq (d0 & post & -> & Hs & Hw). exists (d1 ++ d0), post.
  rewrite <- app_assoc. split_and!; try done. by apply stopped_app.
Qed.

Ltac run_closer Hd :=
  let rf := fresh "rf" in let o := fresh "o" in
  simpl in Hd; destruct Hd as (rf & Hd & ->);
  first [ apply closer_run in Hd as (-> & o & Hd)
        | apply ticker_Stop_run in Hd as (-> & Hd) ].

Lemma migrateDB_run dbName dataDir backend tempDir w r w' :
  migrateDB dbName dataDir backend tempDir w = (r, w') →
  ∃ d f1 started,
    upd w w' d (foldl (commit_or_keep tempDir dbName) f1 (commits d))
        (if started : bool then tickers w ++ [false] else tickers w)
        (if started then goroutines w ++ [Running] else goroutines w) ∧
    (f1 = fs w ∨ fs_open WriteMode dbName PebbleDBBackend tempDir (fs w) = inr f1) ∧
    match r with
    | Val None =>
        ∃ b0 kv dloop last c' t0 t1 o1 o2 o3,
          started = true ∧
          fs_open ReadMode dbName backend dataDir (fs w) = inr (fs w) ∧
          fs_open WriteMode dbName PebbleDBBackend tempDir (fs w) = inr f1 ∧
          fs_store dataDir dbName f1 = Some (b0, kv) ∧
          d = [EvDb (NewDB dbName backend dataDir) None;
               EvDb (NewDB dbName PebbleDBBackend tempDir) None;
               EvDb (Iterator dataDir dbName) None;
               EvDb (NewBatch tempDir dbName) None;
               EvNewTicker (length (tickers w)); EvGo (length (goroutines w)); EvNow t0]
              ++ dloop ++
              [EvDb (WriteSync tempDir dbName last) None; EvDb BatchClose None; EvNow t1;
               EvPrintf summary_format [AInt c'; ADuration (t1 - t0)];
               EvTickerStop (length (tickers w)); EvDb IterClose o1;
               EvDb (DBClose tempDir dbName) o2; EvDb (DBClose dataDir dbName) o3] ∧
          quiet dloop ∧
          concat (commits dloop) ++ last = iter_records kv ∧
          sets dloop = iter_records kv ∧
          (Z.of_nat (length (iter_records kv)) < 2 ^ 63 →
           Forall (λ b, Z.of_nat (length b) = 10000) (commits dloop) ∧
           c' = Z.of_nat (length (iter_records kv)) ∧
           Z.of_nat (length last) = c' mod 10000)
    | Val (Some err) => ∃ e, failed d e err
    | _ => False
    end.
Proof.
  unfold migrateDB. intros H.
  bind_step H.
  2,3: by apply db_NewDB_run in Hrun as [(? & ? & ?)|(? & ? & ?)].
  apply db_NewDB_run in Hrun as [(e & ? & Hc)|(f0 & ? & Hflt & Hopen & Hc)]; simplify_eq.
  { unfold mret, M_ret in H. simplify_eq. eexists [_], (fs w), false.
    split; [open_upd; solve_upd done|]. split; [by left|].
    eexists. apply (failed_intro [_] []); [by apply stopped_one|constructor]. }
  pose proof (fs_open_read _ _ _ _ _ Hopen) as ->.
  apply defer_inv in H as (rb1 & wb1 & H & Hd1).
  bind_step H.
  2,3: by apply db_NewDB_run in Hrun as [(? & ? & ?)|(? & ? & ?)].
  apply db_NewDB_run in Hrun as [(e & ? & Hc1)|(f1 & ? & Hflt1 & Hopen1 & Hc1)]; simplify_eq.
  { unfold mret, M_ret in H. simplify_eq. run_closer Hd1.
    eexists (_ :: _ :: [_]), (fs w), false.
    split; [open_upd; solve_upd done|]. split; [by left|].
    eexists. apply (failed_intro [_;_] [_]); [|by repeat constructor].
    apply (stopped_app [_]); [quiet_tac|by apply stopped_one]. }
  apply defer_inv in H as (rb2 & wb2 & H & Hd2).
  bind_step H.
  2,3: by apply db_Iterator_run in Hrun as [(? & ? & ?)|(? & ? & ? & ? & ?)].
  apply db_Iterator_run in Hrun as [(e & ? & Hc2)|(b0 & kv & ? & Hst & Hc2)]; simplify_eq.
  { unfold mret, M_ret in H. simplify_eq. run_closer Hd2. run_closer Hd1.
    eexists (_ :: _ :: _ :: _ :: [_]), f1, false.
    open_upd. chase_in Hopen1. split; [solve_upd done|]. split; [by right|].
    eexists. apply (failed_intro [_;_;_] [_;_]); [|by repeat constructor].
    apply (stopped_app [_;_]); [quiet_tac|by apply stopped_one]. }
  apply defer_inv in H as (rb3 & wb3 & H & Hd3).
  bind_step H.
  2,3: by apply db_NewBatch_run in Hrun as (? & ?).
  apply db_NewBatch_run in Hrun as (? & Hc3); simplify_eq.
  bind_step H.
  2,3: by apply time_NewTicker_run in Hrun as (? & ?).
  apply time_NewTicker_run in Hrun as (? & Hc4); simplify_eq.
  apply defer_inv in H as (rb4 & wb4 & H & Hd4).
  bind_step H.
  2,3: by apply go_reporter_run in Hrun as (? & ?).
  apply go_reporter_run in Hrun as (? & Hc5); simplify_eq.
  bind_step H.
  2,3: by apply time_Now_run in Hrun as (? & ? & ? & ?).
  apply time_Now_run in Hrun as (t0 & ? & Ht0 & Hc6); simplify_eq.
  bind_step H.
  all: apply migrateLoop_run in Hrun as (dloop & Hloop & Hres & Hcount); [|done..].
  all: simpl in Hres.
  2: done.
  2:{ destruct Hres as [_ Hres]. open_upd. chase_in Hres.
      by rewrite lookup_app_r, Nat.sub_diag in Hres. }
  destruct a as [err|[batch c']].
  { unfold mret, M_ret in H. simplify_eq. destruct Hres as (e & Hres).
    run_closer Hd4. run_closer Hd3. run_closer Hd2. run_closer Hd1.
    eexists ([_;_;_;_;_;_;_] ++ dloop ++ [_;_;_;_]), f1, true.
    open_upd. chase_in Hopen1. split.
    { solve_upd done. }
    split; [by right|].
    exists e. apply (failed_app [_;_;_;_;_;_;_]); [quiet_tac|].
    apply failed_intro; [done|by repeat constructor]. }
  destruct Hres as (Hq & Hbdb & Hcat & Hsets). simpl in Hcat.
  bind_step H.
  2,3: by apply batch_WriteSync_run in Hrun as [(? & ? & ?)|(? & ? & ?)].
  apply batch_WriteSync_run in Hrun as [(e & ? & Hc7)|(f2 & ? & Hf2 & Hc7)];
    rewrite Hbdb in *; simpl in Hc7; simplify_eq.
  { unfold mret, M_ret in H. simplify_eq.
    run_closer Hd4. run_closer Hd3. run_closer Hd2. run_closer Hd1.
    eexists ([_;_;_;_;_;_;_] ++ dloop ++ [_] ++ [_;_;_;_]), f1, true.
    open_upd. chase_in Hopen1. split; [solve_upd done|].
    split; [by right|].
    eexists. apply (failed_app [_;_;_;_;_;_;_]); [quiet_tac|].
    rewrite app_assoc. apply failed_intro; [|by repeat constructor].
    apply stopped_app; [done|]. by apply stopped_one. }
  bind_step H.
  2,3: by apply release_run in Hrun as (? & ? & ?).
  apply release_run in Hrun as (o & ? & Hc8); simplify_eq.
  destruct o as [e|]; simpl in H.
  { unfold mret, M_ret in H. simplify_eq.
    run_closer Hd4. run_closer Hd3. run_closer Hd2. run_closer Hd1.
    eexists ([_;_;_;_;_;_;_] ++ dloop ++ [_;_] ++ [_;_;_;_]), f1, true.
    open_upd. chase_in Hopen1. chase_in Hf2. simpl in Hf2. split.
    { solve_upd ltac:(unfold commit_or_keep at 1; by rewrite Hf2). }
    split; [by right|].
    eexists. apply (failed_app [_;_;_;_;_;_;_]); [quiet_tac|].
    rewrite app_assoc. apply failed_intro; [|by repeat constructor].
    apply stopped_app; [done|]. apply (stopped_app [_]); [quiet_tac|]. by apply stopped_one. }
  bind_step H.
  2,3: by apply time_Since_run in Hrun as (? & ? & ? & ?).
  apply time_Since_run in Hrun as (t1 & ? & Ht1 & Hc9); simplify_eq.
  bind_step H.
  2,3: by apply Printf_run in Hrun as (? & ?).
  apply Printf_run in Hrun as (_ & Hc10).
  unfold mret, M_ret in H. simplify_eq.
  run_closer Hd4. run_closer Hd3. run_closer Hd2. run_closer Hd1.
  eexists ([_;_;_;_;_;_;_] ++ dloop ++ [_;_;_;_] ++ [_;_;_;_]), f1, true.
  open_upd. chase_in Hopen1. chase_in Hf2. simpl in Hf2. chase_in Hst. simpl in Hst. split.
  { solve_upd ltac:(unfold commit_or_keep at 1; by rewrite Hf2). }
  split; [by right|].
  eexists b0, kv, dloop, _, _, _, _, _, _, _.
  split_and!; try done.
  intros Hlt. destruct Hcount as (Hall & -> & Hlast); [lia|simpl; lia|done|].
  by rewrite Z.add_0_l in Hlast |- *.
Qed.

(** Facts that hold by evaluating the program on a concrete world. *)
Ltac by_compute := apply (bool_decide_unpack _); vm_compute; exact I.

Lemma apply_batch_app (l1 l2 : list record) (m : KV) :
  apply_batch (l1 ++ l2) m = apply_batch l2 (apply_batch l1 m).
Proof. apply foldl_app. Qed.

Lemma apply_batch_union (l : list record) (m : KV) :
  NoDup l.*1 → apply_batch l m = list_to_map l ∪ m.
Proof.
  revert m. induction l as [|[k v] l IH]; intros m Hnd.
  - simpl. by rewrite (left_id_L ∅ (∪)).
  - rewrite fmap_cons in Hnd. apply NoDup_cons in Hnd as [Hk Hnd].
    unfold apply_batch in *. simpl.
    rewrite IH by done. rewrite <- insert_union_l. symmetry.
    apply insert_union_r. by apply not_elem_of_list_to_map_1.
Qed.

Lemma iter_records_perm (kv : KV) : iter_records kv ≡ₚ map_to_list kv.
Proof. apply merge_sort_Permutation. Qed.

Lemma iter_records_NoDup (kv : KV) : NoDup (iter_records kv).*1.
Proof. rewrite iter_records_perm. apply NoDup_fst_map_to_list. Qed.

Lemma iter_records_to_map (kv : KV) : list_to_map (iter_records kv) = kv.
Proof.
  rewrite <- (list_to_map_to_list kv) at 2.
  apply list_to_map_proper; [apply iter_records_NoDup|apply iter_records_perm].
Qed.

Lemma iter_records_length (kv : KV) : length (iter_records kv) = size kv.
Proof. by rewrite iter_records_perm, length_map_to_list. Qed.

Lemma apply_batch_iter (kv m : KV) : apply_batch (iter_records kv) m = kv ∪ m.
Proof.
  rewrite apply_batch_union by apply iter_records_NoDup. by rewrite iter_records_to_map.
Qed.

Lemma get_set_dir d v f : get_dir d (set_dir d v f) = v.
Proof. by destruct d. Qed.

Lemma get_set_dir_ne d d' v f : d ≠ d' → get_dir d' (set_dir d v f) = get_dir d' f.
Proof. by destruct d, d'. Qed.

(** A commit changes the content of its store and nothing else. *)
Lemma fs_store_commit d name f b kv ops :
  fs_store d name f = Some (b, kv) →
  fs_store d name (commit_or_keep d name f ops) = Some (b, apply_batch ops kv).
Proof.
  unfold fs_store, commit_or_keep, fs_commit. intros H.
  destruct (get_dir d f) as [m|] eqn:Hd; [|done]. simpl in H.
  destruct (m !! store_file name) as [[| |b' kv']|] eqn:Hm; simplify_eq/=.
  by rewrite get_set_dir; simpl; rewrite lookup_insert_eq.
Qed.

Lemma fs_store_commits d name f b kv cs :
  fs_store d name f = Some (b, kv) →
  fs_store d name (foldl (commit_or_keep d name) f cs) = Some (b, apply_batch (concat cs) kv).
Proof.
  revert f kv. induction cs as [|ops cs IH]; intros f kv H; simpl; [done|].
  rewrite apply_batch_app. apply IH. by apply fs_store_commit.
Qed.

Lemma get_dir_commit d d' name f ops :
  d ≠ d' → get_dir d' (commit_or_keep d name f ops) = get_dir d' f.
Proof.
  intros Hne. unfold commit_or_keep, fs_commit.
  destruct (get_dir d f) as [m|]; [|done].
  destruct (m !! store_file name) as [[]|]; try done.
  by rewrite get_set_dir_ne.
Qed.

Lemma get_dir_commits d d' name f cs :
  d ≠ d' → get_dir d' (foldl (commit_or_keep d name) f cs) = get_dir d' f.
Proof.
  intros Hne. revert f. induction cs as [|ops cs IH]; intros f; simpl; [done|].
  rewrite IH. by apply get_dir_commit.
Qed.

(** Opening a store for writing creates it when it is missing, and then it
    is empty; an existing store keeps its content. *)
Lemma fs_open_write name backend d f f1 :
  fs_open WriteMode name backend d f = inr f1 →
  fs_store d name f1 = Some (backend, default ∅ (snd <$> fs_store d name f)) ∧
  ∀ d', d ≠ d' → get_dir d' f1 = get_dir d' f.
Proof.
  unfold fs_open, fs_store. destruct (get_dir d f) as [m|] eqn:Hd; simpl.
  - destruct (m !! store_file name) as [[| |b kv]|] eqn:Hm; simpl; try done.
    + case_decide; [|done]. intros [= <-]. rewrite Hd. simpl. rewrite Hm. simpl.
      by subst.
    + intros [= <-]. rewrite get_set_dir. simpl. rewrite lookup_insert_eq. simpl.
      split; [done|]. intros. by apply get_set_dir_ne.
  - intros [= <-]. rewrite get_set_dir. simpl. rewrite lookup_singleton_eq. simpl.
    split; [done|]. intros. by apply get_set_dir_ne.
Qed.

Lemma fs_store_dir d name f f' :
  get_dir d f' = get_dir d f → fs_store d name f' = fs_store d name f.
Proof. unfold fs_store. by intros ->. Qed.

Lemma commits_wrapup_free t0 o0 c t1 i o1 o2 o3 a b last (dloop : list Event) nm bk dd td :
  commits ([EvDb (NewDB nm bk dd) None; EvDb (NewDB nm PebbleDBBackend td) None;
            EvDb (Iterator dd nm) None; EvDb (NewBatch td nm) None;
            EvNewTicker a; EvGo b; EvNow t0] ++ dloop ++
           [EvDb (WriteSync td nm last) None; EvDb BatchClose None; EvNow t1;
            EvPrintf summary_format [AInt c; ADuration o0];
            EvTickerStop i; EvDb IterClose o1; EvDb (DBClose td nm) o2;
            EvDb (DBClose dd nm) o3]) = commits dloop ++ [last].
Proof. rewrite !commits_app. unfold commits at 1 3. simpl. done. Qed.



(** The facts about a successful migration from the data directory to the
    staging directory, in terms of the content [kv] of the source store. *)
Lemma migrateDB_success dbName backend w w' kv :
  store_of DataDir dbName w = Some kv →
  migrateDB dbName DataDir backend TempDir w = (Val None, w') →
  ∃ dloop last c' t0 t1 o1 o2 o3,
    trace w' = trace w ++
      [EvDb (NewDB dbName backend DataDir) None;
       EvDb (NewDB dbName PebbleDBBackend TempDir) None;
       EvDb (Iterator DataDir dbName) None;
       EvDb (NewBatch TempDir dbName) None;
       EvNewTicker (length (tickers w)); EvGo (length (goroutines w)); EvNow t0]
      ++ dloop ++
      [EvDb (WriteSync TempDir dbName last) None; EvDb BatchClose None; EvNow t1;
       EvPrintf summary_format [AInt c'; ADuration (t1 - t0)];
       EvTickerStop (length (tickers w)); EvDb IterClose o1;
       EvDb (DBClose TempDir dbName) o2; EvDb (DBClose DataDir dbName) o3] ∧
    quiet dloop ∧
    concat (commits dloop) ++ last = iter_records kv ∧
    sets dloop = iter_records kv ∧
    store_of TempDir dbName w' = Some (kv ∪ default ∅ (store_of TempDir dbName w)) ∧
    (Z.of_nat (size kv) < 2 ^ 63 →
       Forall (λ b, Z.of_nat (length b) = 10000) (commits dloop) ∧
       c' = Z.of_nat (size kv) ∧ Z.of_nat (length last) = c' mod 10000).
Proof.
  intros Hsrc H. apply migrateDB_run in H as (d & f1 & started & Hu & _ & Hok).
  destruct Hok as (b0 & kv0 & dloop & last & c' & t0 & t1 & o1 & o2 & o3 & -> & _ & Hopen
    & Hst & -> & Hq & Hcat & Hsets & Hcount).
  apply fs_open_write in Hopen as [Hnew Hframe].
  assert (kv0 = kv) as ->.
  { rewrite (fs_store_dir DataDir dbName (fs w) f1) in Hst by by apply Hframe.
    unfold store_of in Hsrc. rewrite Hst in Hsrc. by simplify_eq/=. }
  exists dloop, last, c', t0, t1, o1, o2, o3.
  split_and!; try done.
  - by destruct Hu.
  - unfold store_of at 1. destruct Hu as [_ -> _ _ _].
    rewrite (fs_store_commits _ _ _ _ _ _ Hnew).
    rewrite commits_wrapup_free, concat_app. simpl.
    by rewrite app_nil_r, Hcat, apply_batch_iter.
  - rewrite iter_records_length in Hcount. done.
Qed.

(** ** The claims about [migrateDB] *)

(** C1, as stated, fails: [migrateDB] opens the store it finds in the
    staging directory, and its keys stay.  Here the run succeeds and the
    destination holds the key [b], which the source does not have. *)
Lemma migrateDB_keeps_old_keys :
  ∃ w', migrateDB "blockstore" DataDir GoLevelDBBackend TempDir stale_world = (Val None, w') ∧
        store_of DataDir "blockstore" stale_world = Some {[ key_a := val_1 ]} ∧
        store_of TempDir "blockstore" w' = Some {[ key_a := val_1; key_b := val_2 ]}.
Proof.
  exists (migrateDB "blockstore" DataDir GoLevelDBBackend TempDir stale_world).2.
  split_and!; by_compute.
Qed.

(** C1 (amended): after a successful run of [migrateDB] the destination
    store holds every record of the source with the same key and value, and
    besides them only what it held under other keys when it was opened: so
    no other keys when it was empty or new.  The committed batches,
    concatenated, are the records in the order of the source iterator. *)
Theorem migrateDB_complete dbName backend w w' kv :
  store_of DataDir dbName w = Some kv →
  migrateDB dbName DataDir backend TempDir w = (Val None, w') →
  store_of TempDir dbName w' = Some (kv ∪ default ∅ (store_of TempDir dbName w)) ∧
  (default ∅ (store_of TempDir dbName w) = ∅ → store_of TempDir dbName w' = Some kv) ∧
  (∀ d, trace w' = trace w ++ d → concat (commits d) = iter_records kv).
Proof.
  intros Hsrc H.
  destruct (migrateDB_success _ _ _ _ _ Hsrc H)
    as (dloop & last & c' & t0 & t1 & o1 & o2 & o3 & Ht & Hq & Hcat & Hsets & Hdst & _).
  split_and!; [done| |].
  - intros Hempty. by rewrite Hdst, Hempty, (right_id_L ∅ (∪)).
  - intros d Hd. rewrite Ht in Hd. apply app_inv_head in Hd as <-.
    by rewrite commits_wrapup_free, concat_app; simpl; rewrite app_nil_r.
Qed.

Lemma migrateDB_complete_witness :
  store_of TempDir "blockstore"
    (migrateDB "blockstore" DataDir GoLevelDBBackend TempDir small_world).2
  = Some {[ key_a := val_1; key_b := val_2 ]} ∧
  concat (commits (trace (migrateDB "blockstore" DataDir GoLevelDBBackend TempDir small_world).2))
  = iter_records {[ key_a := val_1; key_b := val_2 ]}.
Proof.
  destruct (migrateDB_complete "blockstore" GoLevelDBBackend small_world
              (migrateDB "blockstore" DataDir GoLevelDBBackend TempDir small_world).2
              {[ key_a := val_1; key_b := val_2 ]}) as (_ & H1 & H2);
    [by_compute | by_compute |].
  split.
  - apply H1. by_compute.
  - apply H2. by_compute.
Defined.






(** C9, as stated, fails: when the migration of a store has ended, its
    progress goroutine has not returned; only its ticker is stopped. *)
Lemma reporter_outlives_migration :
  (migrateDB "blockstore" DataDir GoLevelDBBackend TempDir small_world).1 = Val None ∧
  goroutines (migrateDB "blockstore" DataDir GoLevelDBBackend TempDir small_world).2 = [Running] ∧
  tickers (migrateDB "blockstore" DataDir GoLevelDBBackend TempDir small_world).2 = [false].
Proof. split_and!; by_compute. Qed.

(** C9 (amended): a migration starts at most one progress goroutine and one
    ticker, and exactly one of each when it succeeds.  When the migration
    ends the ticker is stopped, so before the next store's migration
    starts; the goroutine is not: no turn of its loop ends it, it stays
    (blocked) for the rest of the process, and the goroutines and tickers of
    earlier migrations are left as they were. *)
Theorem reporter_lifetime dbName backend w r w' :
  migrateDB dbName DataDir backend TempDir w = (r, w') →
  (∀ totalCount c, (reporter totalCount c).2 = Running) ∧
  ((r ≠ Val None ∧ tickers w' = tickers w ∧ goroutines w' = goroutines w) ∨
   (tickers w' = tickers w ++ [false] ∧ goroutines w' = goroutines w ++ [Running])).
Proof.
  intros H. split; [by intros ? []|].
  apply migrateDB_run in H as (d & f1 & started & Hu & _ & Hr).
  destruct Hu as [_ _ _ Hk Hg]. destruct started.
  - by right.
  - left. split_and!; try done. intros ->.
    by destruct Hr as (? & ? & ? & ? & ? & ? & ? & ? & ? & ? & ? & _).
Qed.

Lemma reporter_lifetime_witness :
  tickers (migrateDB "blockstore" DataDir GoLevelDBBackend TempDir small_world).2 = [false] ∧
  goroutines (migrateDB "blockstore" DataDir GoLevelDBBackend TempDir small_world).2 = [Running].
Proof.
  destruct (reporter_lifetime "blockstore" GoLevelDBBackend small_world (Val None)
              (migrateDB "blockstore" DataDir GoLevelDBBackend TempDir small_world).2)
    as [_ [[Hne _]|[H1 H2]]]; [by_compute|done|].
  split; [exact H1|exact H2].
Defined.

(** Opens an [upd] record. *)
Ltac dest_upd H :=
  let Ht := fresh "u_trace" in let Hf := fresh "u_fs" in
  let Hs := fresh "u_stdin" in let Hk := fresh "u_tickers" in
  let Hg := fresh "u_goroutines" in
  destruct H as [Ht Hf Hs Hk Hg].

(** ** Traces of fatal exits *)

Lemma wrapup_not_fatal x : wrapup_ev x = true → fatal_ev x = false.
Proof. by destruct x as [| | |[]| | | | | |]. Qed.

Lemma migration_error_fatal e : migration_error_ev e = true → fatal_ev e = true.
Proof. by destruct e as [| | |[] []| | | | | |]. Qed.

(** The first fatal failure of a trace is at one place only. *)
Lemma first_fatal_unique (p1 p2 s1 s2 : list Event) x y :
  p1 ++ x :: s1 = p2 ++ y :: s2 →
  quiet p1 → fatal_ev x = true → quiet s1 → fatal_ev y = true →
  p1 = p2 ∧ x = y ∧ s1 = s2.
Proof.
  revert p2. induction p1 as [|a p1 IH]; intros [|b p2] Heq Hq1 Hx Hs1 Hy; simplify_eq/=.
  - done.
  - apply Forall_app in Hs1 as [_ Hs1]. apply Forall_cons in Hs1 as [Hs1 _]. congruence.
  - apply Forall_cons in Hq1 as [Hq1 _]. congruence.
  - apply Forall_cons in Hq1 as [_ Hq1].
    destruct (IH p2) as (-> & -> & ->); done.
Qed.

Lemma died_split d e format args pre' e' post' :
  died d e format args → d = pre' ++ e' :: post' → fatal_ev e' = true →
  e' = e ∧ quiet pre' ∧
  ∃ post, post' = post ++ [EvPrintf format args] ∧ Forall (λ x, wrapup_ev x = true) post ∧
          (migration_error_ev e = false → post = []).
Proof.
  intros (pre & post & -> & Hq & He & Hw & _ & _ & Hpost) Heq He'.
  destruct (first_fatal_unique pre pre' (post ++ [EvPrintf format args]) post' e e')
    as (<- & <- & <-); try done.
  - apply Forall_app_2; [|by repeat constructor].
    eapply Forall_impl; [exact Hw|]. apply wrapup_not_fatal.
  - split_and!; try done. by exists post.
Qed.

Lemma quiet_not_fatal d pre e post : quiet d → d = pre ++ e :: post → fatal_ev e = false.
Proof.
  intros Hq ->. apply Forall_app in Hq as [_ Hq]. by apply Forall_cons in Hq as [Hq _].
Qed.

Lemma died_app d1 d2 e format args :
  quiet d1 → died d2 e format args → died (d1 ++ d2) e format args.
Proof.
  intros Hq (pre & post & -> & Hpre & Hrest). exists (d1 ++ pre), post.
  rewrite <- app_assoc. split; [done|]. split; [by apply quiet_app|done].
Qed.

Lemma outcome_app {A} (r : Res A) d1 d2 : quiet d1 → outcome r d2 → outcome r (d1 ++ d2).
Proof.
  intros Hq. destruct r as [a|c|]; simpl; [by apply quiet_app| |by apply quiet_app].
  intros (-> & e & f & a & Hd). split; [done|]. exists e, f, a. by apply died_app.
Qed.

(** A failed migration, followed by the message of [main]. *)
Lemma failed_died d e err dbName :
  failed d e err →
  died (d ++ [EvPrintf "Failed to migrate %s database: %v. Please fix the error and restart."
                [AStr dbName; AErr err]]) e
       "Failed to migrate %s database: %v. Please fix the error and restart."
       [AStr dbName; AErr err].
Proof.
  intros (d0 & post & -> & (pre & -> & Hq & He & Herr & Hw) & Hpost).
  exists pre, post. rewrite <- !app_assoc. simpl.
  split; [done|]. split; [done|]. split; [by apply migration_error_fatal|].
  split; [done|].
  destruct e as [| | |op [cause|]| | | | | |]; try done. simpl in Herr. simplify_eq.
  destruct Hw as (f & a & c & ->). simpl.
  split; [|split; [by exists c|intros Hf; simpl in He; congruence]].
  exists dbName, (Errorf f a (Cause c)). split_and!; try done. by exists f, a, c.
Qed.

(** ** The parts of [main] before the confirmation *)

Lemma steady_refl w : steady w w [].
Proof. split_and!; try done. by rewrite app_nil_r. Qed.

Lemma steady_trans w w1 w2 d1 d2 :
  steady w w1 d1 → steady w1 w2 d2 → steady w w2 (d1 ++ d2).
Proof.
  intros (Ht1 & Hs1 & Hf1) (Ht2 & Hs2 & Hf2). split_and!; try congruence.
  rewrite app_assoc. congruence.
Qed.

Lemma calm_steady w w' d : calm w w' d → steady w w' d.
Proof. intros []. split_and!; congruence. Qed.

Lemma createTempDir_run w r w' :
  createTempDir TempDir w = (r, w') → ∃ d, steady w w' d ∧ outcome r d.
Proof.
  unfold createTempDir. intros H. bind_step H.
  2,3: by apply os_call_run in Hrun as [(? & ? & ?)|(? & ? & ?)].
  apply os_call_run in Hrun as [(c & ? & Hc & _)|(f1 & ? & _ & Hsem & Hc)]; simplify_eq.
  - apply fatalf_run in H as (-> & Hc1).
    eexists. split; [apply calm_steady, (calm_trans _ _ _ _ _ _ _ _ Hc Hc1)|].
    split; [done|]. eexists _, _, _. exists [], []. simpl.
    split_and!; try done; try (by apply Forall_nil); by exists c.
  - unfold mret, M_ret in H. simplify_eq. eexists. split.
    + dest_upd Hc. split_and!; try done. rewrite u_fs.
      unfold fs_mkdirAll in Hsem. simpl in Hsem.
      destruct (temp_dir (fs w)); by injection Hsem as <-.
    + by repeat constructor.
Qed.

Lemma migrateDB_steady dbName backend w r w' :
  migrateDB dbName DataDir backend TempDir w = (r, w') →
  ∃ d, steady w w' d ∧
    match r with
    | Val None => quiet d
    | Val (Some err) => ∃ e, failed d e err
    | _ => False
    end.
Proof.
  intros H. apply migrateDB_run in H as (d & f1 & started & Hu & Hf1 & Hr).
  exists d. split.
  - dest_upd Hu. split_and!; try done. rewrite u_fs.
    change (get_dir DataDir (foldl (commit_or_keep TempDir dbName) f1 (commits d))
            = get_dir DataDir (fs w)).
    rewrite get_dir_commits by done.
    destruct Hf1 as [->|Hopen]; [done|].
    apply fs_open_write in Hopen as [_ Hframe]. by apply Hframe.
  - destruct r as [[err|]| |]; try done.
    destruct Hr as (b0 & kv & dloop & last & c' & t0 & t1 & o1 & o2 & o3 & _ & _ & _ & _
      & -> & Hq & _).
    apply (quiet_app [_;_;_;_;_;_;_]); [by repeat constructor|].
    apply quiet_app; [done|by repeat constructor].
Qed.

Lemma migrateOrDie_run dbName backend w r w' :
  migrateOrDie dbName DataDir backend TempDir w = (r, w') →
  ∃ d, steady w w' d ∧ outcome r d.
Proof.
  unfold migrateOrDie. intros H. bind_step H.
  2,3: by apply Printf_run in Hrun as (? & ?).
  apply Printf_run in Hrun as (_ & Hc).
  bind_step H.
  - apply migrateDB_steady in Hrun as (d & Hs & Hr). destruct a0 as [err|].
    + apply fatalf_run in H as (-> & Hc1). destruct Hr as (e & Hr).
      eexists. split.
      { eapply steady_trans; [by apply calm_steady|].
        eapply steady_trans; [done|by apply calm_steady]. }
      split; [done|]. eexists e, _, _. apply (died_app [_]); [by repeat constructor|].
      by apply failed_died.
    + unfold mret, M_ret in H. simplify_eq. eexists. split.
      { eapply steady_trans; [by apply calm_steady|done]. }
      apply quiet_cons; done.
  - by apply migrateDB_steady in Hrun as (d & Hs & Hr).
  - by apply migrateDB_steady in Hrun as (d & Hs & Hr).
Qed.

Lemma forEach_steady {A} (body : A → M unit) xs :
  (∀ x w r w', body x w = (r, w') → ∃ d, steady w w' d ∧ outcome r d) →
  ∀ w r w', forEach xs body w = (r, w') → ∃ d, steady w w' d ∧ outcome r d.
Proof.
  intros Hbody. induction xs as [|x xs IH]; intros w r w' H; simpl in H.
  - unfold mret, M_ret in H. simplify_eq. exists []. split; [apply steady_refl|by apply Forall_nil].
  - bind_step H.
    + apply Hbody in Hrun as (d1 & Hs1 & Hq1). apply IH in H as (d2 & Hs2 & Hr).
      exists (d1 ++ d2). split; [by eapply steady_trans|by apply outcome_app].
    + by apply Hbody in Hrun.
    + by apply Hbody in Hrun.
Qed.

Lemma migrateCommon_run backend w r w' :
  migrateCommon DataDir backend TempDir w = (r, w') → ∃ d, steady w w' d ∧ outcome r d.
Proof. apply forEach_steady. intros x. apply migrateOrDie_run. Qed.

Lemma os_Stat_run p w r w' :
  os_Stat p w = (r, w') →
  ∃ o, r = Val o ∧ calm w w' [EvFs (Stat p) o] ∧
       (o = None → fs_exists p (fs w) = true).
Proof.
  intros H. apply os_call_run in H as [(c & ? & Hc & _)|(f1 & ? & _ & Hsem & Hc)]; simplify_eq.
  - eexists. split_and!; done.
  - unfold fs_stat in Hsem. destruct (fs_exists p (fs w)) eqn:He; simplify_eq.
    exists None. split_and!; done.
Qed.

Lemma migrateLightClient_run backend w r w' :
  migrateLightClient DataDir backend TempDir w = (r, w') →
  ∃ d, steady w w' d ∧ outcome r d.
Proof.
  unfold migrateLightClient. intros H. bind_step H.
  2,3: by apply os_Stat_run in Hrun as (? & ? & ?).
  apply os_Stat_run in Hrun as (o & ? & Hc & _); simplify_eq. destruct o as [err|].
  - unfold mret, M_ret in H. simplify_eq. eexists. split; [by apply calm_steady|].
    by repeat constructor.
  - apply migrateOrDie_run in H as (d & Hs & Hr). exists ([EvFs (Stat (Join DataDir lightClientDBName)) None] ++ d).
    split; [eapply steady_trans; [by apply calm_steady|done]|].
    apply outcome_app; [by repeat constructor|done].
Qed.

(** ** The confirmation *)

Lemma prompt_not_fatal x : prompt_ev x = true → fatal_ev x = false.
Proof. by destruct x. Qed.

Lemma ReadString_run w r w' :
  ReadString w = (r, w') →
  fs w' = fs w ∧
  ((stdin w = [] ∧ r = Val (inl (Cause EOF)) ∧ stdin w' = [] ∧
    trace w' = trace w ++ [EvReadString None]) ∨
   (∃ line rest, stdin w = line :: rest ∧ r = Val (inr (line ++ newline)%string) ∧
      stdin w' = rest ∧ trace w' = trace w ++ [EvReadString (Some line)])).
Proof.
  unfold ReadString. destruct (stdin w) as [|line rest] eqn:Hin; intros; simplify_eq.
  - split; [done|]. by left.
  - split; [done|]. right. by exists line, rest.
Qed.

Lemma promptLoop_run question pending : ∀ w r w',
  stdin w = pending → promptLoop question pending w = (r, w') →
  r = answer pending ∧ fs w' = fs w ∧
  ∃ d, trace w' = trace w ++ d ∧ Forall (λ e, prompt_ev e = true) d.
Proof.
  induction pending as [|line pending IH]; intros w r w' Hin H; simpl in H.
  - bind_step H. 2,3: by apply Printf_run in Hrun as (? & ?).
    apply Printf_run in Hrun as (_ & Hc).
    bind_step H.
    + apply ReadString_run in Hrun as (Hfs & [(_ & ? & _ & Ht)|(l & rest & Hl & _)]);
        simplify_eq.
      2:{ dest_upd Hc. congruence. }
      bind_step H. 2,3: by apply Println_run in Hrun as (? & ?).
      apply Println_run in Hrun as (_ & Hc1). unfold forever in H. simplify_eq.
      dest_upd Hc; dest_upd Hc1. split_and!; [done|congruence|].
      eexists [_;_;_].
      split; [rewrite u_trace0, Ht, u_trace; by rewrite <- !app_assoc|].
      by repeat constructor.
    + by apply ReadString_run in Hrun as (_ & [(_ & ? & _)|(? & ? & _ & ? & _)]).
    + by apply ReadString_run in Hrun as (_ & [(_ & ? & _)|(? & ? & _ & ? & _)]).
  - bind_step H. 2,3: by apply Printf_run in Hrun as (? & ?).
    apply Printf_run in Hrun as (_ & Hc).
    bind_step H.
    2,3: by apply ReadString_run in Hrun as (_ & [(_ & ? & _)|(? & ? & _ & ? & _)]).
    apply ReadString_run in Hrun as (Hfs & [(Hnil & _)|(l & rest & Hl & Hr & Hrest & Ht)]).
    { dest_upd Hc. congruence. }
    assert (l = line ∧ rest = pending) as [-> ->] by (dest_upd Hc; split; congruence).
    injection Hr as ->.
    simpl. unfold classify. cbv zeta.
    repeat case_bool_decide.
    + unfold mret, M_ret in H. simplify_eq. dest_upd Hc. split_and!; [done|congruence|].
      eexists [_;_].
      split; [rewrite Ht, u_trace; by rewrite <- !app_assoc|by repeat constructor].
    + unfold mret, M_ret in H. simplify_eq. dest_upd Hc. split_and!; [done|congruence|].
      eexists [_;_].
      split; [rewrite Ht, u_trace; by rewrite <- !app_assoc|by repeat constructor].
    + bind_step H. 2,3: by apply Println_run in Hrun as (? & ?).
      apply Println_run in Hrun as (_ & Hc1).
      assert (Hin' : stdin w2 = pending) by (dest_upd Hc1; congruence).
      apply IH in H as (-> & Hfs' & d & Ht' & Hd); [|done].
      dest_upd Hc; dest_upd Hc1. split_and!; [done|congruence|].
      exists ([EvPrintf "%s (y/n): " [AStr question]; EvReadString (Some line);
               EvPrintln [AStr "Invalid input. Please enter 'y' or 'n'."]] ++ d).
      split; [|apply Forall_app_2; [by repeat constructor|done]].
      rewrite Ht', u_trace0, Ht, u_trace. by rewrite <- !app_assoc.
Qed.

Lemma promptYesNo_run question w r w' :
  promptYesNo question w = (r, w') →
  r = answer (stdin w) ∧ fs w' = fs w ∧
  ∃ d, trace w' = trace w ++ d ∧ Forall (λ e, prompt_ev e = true) d.
Proof. by apply promptLoop_run. Qed.

Lemma promptYesNo_answer question w : (promptYesNo question w).1 = answer (stdin w).
Proof.
  destruct (promptYesNo question w) as [r w'] eqn:H.
  by apply promptYesNo_run in H as (-> & _).
Qed.

(** ** The swap *)

Lemma outcome_fs_app {A} (r : Res A) d1 d2 :
  quiet d1 → outcome_fs r d2 → outcome_fs r (d1 ++ d2).
Proof.
  intros Hq. destruct r as [a|c|]; simpl; [by apply quiet_app| |by apply quiet_app].
  intros (-> & e & f & a & Hd & He). split; [done|]. exists e, f, a.
  split; [by apply died_app|done].
Qed.

Lemma outcome_fs_outcome {A} (r : Res A) d : outcome_fs r d → outcome r d.
Proof. destruct r; simpl; try done. intros (-> & e & f & a & Hd & _). eauto 10. Qed.

Lemma fs_removeAll_entry n f f1 :
  fs_removeAll (DataDir, Some n) f = inr f1 →
  temp_dir f1 = temp_dir f ∧ entry_at DataDir n f1 = None ∧
  (is_Some (data_dir f) → is_Some (data_dir f1)) ∧
  ∀ n', n' ≠ n → entry_at DataDir n' f1 = entry_at DataDir n' f.
Proof.
  unfold fs_removeAll, entry_at. simpl. destruct (data_dir f) as [m|] eqn:Hm.
  - intros [= <-]. simpl. split_and!; try done.
    + apply lookup_delete_eq.
    + intros n' Hn. by apply lookup_delete_ne.
  - intros [= <-]. rewrite Hm. split_and!; done.
Qed.

Lemma fs_rename_move n f f2 :
  fs_rename (TempDir, Some n) (DataDir, Some n) f = inr f2 →
  ∃ e m st, temp_dir f = Some st ∧ st !! n = Some e ∧ data_dir f = Some m ∧
            f2 = mkFS (Some (<[n := e]> m)) (Some (delete n st)).
Proof.
  unfold fs_rename. simpl. destruct (temp_dir f) as [st|] eqn:Hst; [|done]. simpl.
  destruct (st !! n) as [e|] eqn:He; [|done].
  destruct (data_dir f) as [m|] eqn:Hm; [|done].
  destruct (m !! n) as [old|]; [destruct (rename_may_replace e old); [|done]|];
    intros [= <-]; by exists e, m, st.
Qed.

Ltac fin :=
  first [ done | by apply Forall_nil | by repeat constructor | by eexists ].

(** The first half of the body of the loop: the [Stat] of the destination
    and its removal. *)
Lemma remove_existing_run n w r w' :
  (err ← os_Stat (Join DataDir n);
   match err with
   | None =>
       Printf "Replacing %s\n" [APath (Join DataDir n)];;
       err ← os_RemoveAll (Join DataDir n);
       match err with
       | Some err => fatalf "remove all: %v" [AErr err]
       | None => mret tt
       end
   | Some _ => mret tt
   end) w = (r, w') →
  ∃ d, trace w' = trace w ++ d ∧
    temp_dir (fs w') = temp_dir (fs w) ∧
    (∀ n', n' ≠ n → entry_at DataDir n' (fs w') = entry_at DataDir n' (fs w)) ∧
    Forall (λ ev, renamed_from ev = None) d ∧
    match r with
    | Val _ =>
        d = [EvFs (Stat (Join DataDir n)) None;
             EvPrintf "Replacing %s\n" [APath (Join DataDir n)];
             EvFs (RemoveAll (Join DataDir n)) None] ∨
        ∃ err, d = [EvFs (Stat (Join DataDir n)) (Some err)]
    | Exit c => c = 1 ∧ ∃ e f a, died d e f a ∧ migration_error_ev e = false
    | Hang => False
    end.
Proof.
  intros H. bind_step H. 2,3: by apply os_Stat_run in Hrun as (? & ? & ?).
  apply os_Stat_run in Hrun as (o & ? & Hc & _); simplify_eq. destruct o as [err|].
  - unfold mret, M_ret in H. simplify_eq. eexists. dest_upd Hc.
    split_and!; [done | congruence | intros; congruence | by repeat constructor
                | right; by exists err].
  - bind_step H. 2,3: by apply Printf_run in Hrun as (? & ?).
    apply Printf_run in Hrun as (_ & Hc1).
    bind_step H. 2,3: by apply os_call_run in Hrun as [(? & ? & ?)|(? & ? & ?)].
    apply os_call_run in Hrun as [(c & ? & Hc2 & _)|(f1 & ? & _ & Hsem & Hc2)];
      simplify_eq.
    + apply fatalf_run in H as (-> & Hc3). dest_upd Hc; dest_upd Hc1; dest_upd Hc2; dest_upd Hc3.
      eexists [_;_;_;_]. split_and!.
      * rewrite u_trace2, u_trace1, u_trace0, u_trace. by rewrite <- !app_assoc.
      * congruence.
      * intros. congruence.
      * by repeat constructor.
      * done.
      * eexists _, _, _. split; [|shelve].
        exists [EvFs (Stat (Join DataDir n)) None;
                EvPrintf "Replacing %s\n" [APath (Join DataDir n)]], [].
        split_and!; fin.
        Unshelve. done.
    + unfold mret, M_ret in H. simplify_eq.
      apply fs_removeAll_entry in Hsem as (Htmp & _ & _ & Hothers).
      dest_upd Hc; dest_upd Hc1; dest_upd Hc2. eexists [_;_;_]. split_and!.
      * rewrite u_trace1, u_trace0, u_trace. by rewrite <- !app_assoc.
      * rewrite u_fs1, Htmp. congruence.
      * intros n' Hn. rewrite u_fs1, Hothers by done. congruence.
      * by repeat constructor.
      * by left.
Qed.

(** The second half: the rename. *)
Lemma rename_entry_run n w r w' :
  (err ← os_Rename (Join TempDir n) (Join DataDir n);
   match err with
   | Some err => fatalf "rename %s: %v" [AStr n; AErr err]
   | None => mret tt
   end;;
   Printf "Moved %s -> %s\n" [APath (Join TempDir n); APath (Join DataDir n)]) w = (r, w') →
  ∃ d, trace w' = trace w ++ d ∧
    (∀ n', n' ≠ n → entry_at DataDir n' (fs w') = entry_at DataDir n' (fs w) ∧
                    entry_at TempDir n' (fs w') = entry_at TempDir n' (fs w)) ∧
    Forall (λ ev, ∀ src, renamed_from ev = Some src → src = Join TempDir n) d ∧
    match r with
    | Val _ =>
        d = [EvFs (Rename (Join TempDir n) (Join DataDir n)) None;
             EvPrintf "Moved %s -> %s\n" [APath (Join TempDir n); APath (Join DataDir n)]] ∧
        ∃ e, entry_at TempDir n (fs w) = Some e ∧ entry_at DataDir n (fs w') = Some e
    | Exit c => c = 1 ∧ ∃ e f a, died d e f a ∧ migration_error_ev e = false
    | Hang => False
    end.
Proof.
  intros H. bind_step H. 2,3: by apply os_call_run in Hrun as [(? & ? & ?)|(? & ? & ?)].
  apply os_call_run in Hrun as [(c & ? & Hc & _)|(f1 & ? & _ & Hsem & Hc)]; simplify_eq.
  - bind_step H. 1,3: by apply fatalf_run in Hrun as (? & _).
    apply fatalf_run in Hrun as ([= ->] & Hc1). dest_upd Hc; dest_upd Hc1. eexists [_;_]. split_and!.
    + rewrite u_trace0, u_trace. by rewrite <- !app_assoc.
    + intros. split; congruence.
    + apply Forall_cons; split; [by intros ? [= <-]|].
      apply Forall_cons; split; [done|by apply Forall_nil].
    + done.
    + eexists _, _, _. split; [|shelve].
      exists [], []. split_and!; fin.
      Unshelve. done.
  - bind_step H. 2,3: by unfold mret, M_ret in Hrun.
    unfold mret, M_ret in Hrun. simplify_eq.
    apply Printf_run in H as (-> & Hc1).
    apply fs_rename_move in Hsem as (e & m & st & Hst & He & Hm & ->).
    dest_upd Hc; dest_upd Hc1. eexists [_;_]. split_and!.
    + rewrite u_trace0, u_trace. by rewrite <- !app_assoc.
    + intros n' Hn. rewrite u_fs0, u_fs. unfold entry_at. simpl.
      rewrite Hm, Hst. simpl. by rewrite lookup_insert_ne, lookup_delete_ne.
    + apply Forall_cons; split; [by intros ? [= <-]|].
      apply Forall_cons; split; [done|by apply Forall_nil].
    + done.
    + exists e. rewrite u_fs0, u_fs. unfold entry_at. simpl.
      rewrite Hst. simpl. by rewrite lookup_insert_eq.
Qed.

Lemma moveEntry_run entry w r w' :
  moveEntry DataDir TempDir entry w = (r, w') →
  ∃ d, trace w' = trace w ++ d ∧ outcome_fs r d ∧ r ≠ Hang ∧
    Forall (λ ev, ∀ src, renamed_from ev = Some src →
                         src = Join TempDir (Name entry) ∧ IsDir entry = true) d ∧
    (∀ n', n' ≠ Name entry →
       entry_at DataDir n' (fs w') = entry_at DataDir n' (fs w) ∧
       entry_at TempDir n' (fs w') = entry_at TempDir n' (fs w)) ∧
    (IsDir entry = false → fs w' = fs w ∧ d = []) ∧
    (IsDir entry = true → r = Val tt →
       swap_segment entry d ∧
       ∃ e, entry_at TempDir (Name entry) (fs w) = Some e ∧
            entry_at DataDir (Name entry) (fs w') = Some e).
Proof.
  unfold moveEntry. destruct entry as [n isdir]. simpl. destruct isdir.
  2:{ unfold mret, M_ret. intros; simplify_eq. exists []. rewrite app_nil_r.
      split_and!; try done; by apply Forall_nil. }
  intros H. bind_step H.
  - apply remove_existing_run in Hrun as (d1 & Ht1 & Htmp1 & Hfr1 & Hev1 & Hd1).
    apply rename_entry_run in H as (d2 & Ht2 & Hfr2 & Hev2 & Hr).
    exists (d1 ++ d2). split_and!.
    + rewrite Ht2, Ht1. by rewrite <- app_assoc.
    + assert (quiet d1) by (destruct Hd1 as [->|[err ->]]; by repeat constructor).
      apply outcome_fs_app; [done|]. destruct r as [[]|c|]; try done.
      destruct Hr as [-> _]. by repeat constructor.
    + by destruct r.
    + apply Forall_app_2.
      * eapply Forall_impl; [exact Hev1|]. simpl. intros ev Hev src. by rewrite Hev.
      * eapply Forall_impl; [exact Hev2|]. simpl. intros ev Hev src Hs. split; [by apply Hev|done].
    + intros n' Hn. destruct (Hfr2 n' Hn) as [-> ->]. split; [by apply Hfr1|].
      unfold entry_at. simpl. by rewrite Htmp1.
    + done.
    + intros _ ->. destruct Hr as (-> & e & He1 & He2). split.
      * unfold swap_segment. simpl. destruct Hd1 as [->|[err ->]]; [by left|right; by exists err].
      * exists e. split; [|done]. unfold entry_at in *. simpl in *. by rewrite <- Htmp1.
  - apply remove_existing_run in Hrun as (d1 & Ht1 & Htmp1 & Hfr1 & Hev1 & Hd1).
    exists d1. split_and!; try done.
    + eapply Forall_impl; [exact Hev1|]. simpl. intros ev Hev src. by rewrite Hev.
    + intros n' Hn. split; [by apply Hfr1|]. unfold entry_at. simpl. by rewrite Htmp1.
  - by apply remove_existing_run in Hrun as (d1 & Ht1 & Htmp1 & Hfr1 & Hev1 & Hd1).
Qed.

(** The entries [os.ReadDir] lists are those of the directory, each once. *)
Lemma dir_entries_names st : Name <$> dir_entries st ≡ₚ (map_to_list st).*1.
Proof.
  unfold dir_entries. rewrite <- list_fmap_compose.
  apply fmap_Permutation, merge_sort_Permutation.
Qed.

Lemma dir_entries_NoDup st : NoDup (Name <$> dir_entries st).
Proof. rewrite dir_entries_names. apply NoDup_fst_map_to_list. Qed.

Lemma elem_of_dir_entries st x :
  x ∈ dir_entries st ↔ ∃ e, st !! Name x = Some e ∧ IsDir x = entry_is_dir e.
Proof.
  unfold dir_entries. rewrite list_elem_of_fmap. split.
  - intros ([n e] & -> & Hin). rewrite merge_sort_Permutation in Hin.
    apply elem_of_map_to_list in Hin. by exists e.
  - intros (e & He & Hd). exists (Name x, e). split.
    + destruct x. simpl in *. by subst.
    + rewrite merge_sort_Permutation. by apply elem_of_map_to_list.
Qed.

Lemma forEach_move entries : ∀ w r w',
  NoDup (Name <$> entries) →
  forEach entries (moveEntry DataDir TempDir) w = (r, w') →
  ∃ d, trace w' = trace w ++ d ∧ outcome_fs r d ∧ r ≠ Hang ∧
    Forall (λ ev, ∀ src, renamed_from ev = Some src →
       ∃ x, x ∈ entries ∧ IsDir x = true ∧ src = Join TempDir (Name x)) d ∧
    (∀ n', (∀ x, x ∈ entries → IsDir x = true → Name x ≠ n') →
       entry_at DataDir n' (fs w') = entry_at DataDir n' (fs w) ∧
       entry_at TempDir n' (fs w') = entry_at TempDir n' (fs w)) ∧
    (r = Val tt →
       (∃ segs, d = concat segs ∧ Forall2 swap_segment entries segs) ∧
       ∀ x, x ∈ entries → IsDir x = true →
         ∃ e, entry_at TempDir (Name x) (fs w) = Some e ∧
              entry_at DataDir (Name x) (fs w') = Some e).
Proof.
  induction entries as [|x xs IH]; intros w r w' Hnd H; simpl in H.
  - unfold mret, M_ret in H. simplify_eq. exists []. rewrite app_nil_r.
    split_and!; try done; try by apply Forall_nil.
    intros _. split; [by exists []|]. by intros x Hx%elem_of_nil.
  - rewrite fmap_cons in Hnd. apply NoDup_cons in Hnd as [Hx Hnd].
    assert (Hfresh : ∀ y, y ∈ xs → Name y ≠ Name x).
    { intros y Hy Heq. apply Hx. rewrite <- Heq. by apply list_elem_of_fmap_2. }
    bind_step H.
    + destruct a.
      apply moveEntry_run in Hrun as (d1 & Ht1 & Ho1 & _ & Hev1 & Hfr1 & Hfile1 & Hdir1).
      apply IH in H as (d2 & Ht2 & Ho2 & Hh & Hev2 & Hfr2 & Hok2); [|done].
      assert (Hstep : ∀ n', n' ≠ Name x ∨ IsDir x = false →
                entry_at DataDir n' (fs w0) = entry_at DataDir n' (fs w) ∧
                entry_at TempDir n' (fs w0) = entry_at TempDir n' (fs w)).
      { intros n' [Hn|Hf]; [by apply Hfr1|]. by destruct (Hfile1 Hf) as [-> _]. }
      exists (d1 ++ d2). split_and!.
      * rewrite Ht2, Ht1. by rewrite <- app_assoc.
      * by apply outcome_fs_app.
      * done.
      * apply Forall_app_2.
        -- eapply Forall_impl; [exact Hev1|]. simpl. intros ev Hev src Hs.
           destruct (Hev src Hs) as [-> Hd]. exists x. split_and!; try done. apply list_elem_of_here.
        -- eapply Forall_impl; [exact Hev2|]. simpl. intros ev Hev src Hs.
           destruct (Hev src Hs) as (y & Hy & Hd & ->). exists y. split_and!; try done.
           by apply list_elem_of_further.
      * intros n' Hn'.
        destruct (Hfr2 n') as [-> ->].
        { intros y Hy. apply Hn'. by apply list_elem_of_further. }
        apply Hstep. destruct (IsDir x) eqn:Hd; [left|by right].
        intros ->. eapply (Hn' x); [apply list_elem_of_here|done|done].
      * intros ->. destruct Hok2 as [(segs & -> & Hsegs) Hmoved]; [done|].
        split.
        -- exists (d1 :: segs). split; [done|]. constructor; [|done].
           destruct (IsDir x) eqn:Hd.
           ++ by destruct Hdir1 as [Hseg _]; [done..|].
           ++ unfold swap_segment. rewrite Hd. by destruct Hfile1 as [_ ->].
        -- intros y Hy Hd. apply elem_of_cons in Hy as [->|Hy].
           ++ destruct Hdir1 as [_ (e & He1 & He2)]; [done..|]. exists e. split; [done|].
              destruct (Hfr2 (Name x)) as [-> _]; [|done].
              intros z Hz _. by apply Hfresh.
           ++ destruct (Hmoved y Hy Hd) as (e & He1 & He2). exists e. split; [|done].
              destruct (Hstep (Name y)) as [_ <-]; [|done]. left. by apply Hfresh.
    + apply moveEntry_run in Hrun as (d1 & Ht1 & Ho1 & _ & Hev1 & Hfr1 & Hfile1 & Hdir1).
      exists d1. split_and!; try done.
      * eapply Forall_impl; [exact Hev1|]. simpl. intros ev Hev src Hs.
        destruct (Hev src Hs) as [-> Hd]. exists x. split_and!; try done. apply list_elem_of_here.
      * intros n' Hn'. destruct (IsDir x) eqn:Hd; [|by destruct Hfile1 as [-> _]].
        apply Hfr1. intros ->. eapply (Hn' x); [apply list_elem_of_here|done|done].
    + by apply moveEntry_run in Hrun as (d1 & _ & _ & ? & _).
Qed.

Lemma prompt_quiet d : Forall (λ e, prompt_ev e = true) d → quiet d.
Proof. intros H. eapply Forall_impl; [exact H|]. apply prompt_not_fatal. Qed.

Lemma prompt_not_renamed d :
  Forall (λ e, prompt_ev e = true) d → Forall (λ e, renamed_from e = None) d.
Proof. intros H. eapply Forall_impl; [exact H|]. by intros []. Qed.

Lemma died_now {A} e format args d pre :
  d = pre ++ [e; EvPrintf format args] → quiet pre → fatal_ev e = true →
  reports e format args → canonical e → migration_error_ev e = false →
  outcome_fs (Exit 1 : Res A) d.
Proof.
  intros -> Hq He Hr Hc Hm. split; [done|]. exists e, format, args. split; [|done].
  exists pre, []. by split_and!.
Qed.

(** The part of [copyMigrated] after the confirmation. *)
Lemma moveAll_run w r w' :
  (r ← os_ReadDir TempDir;
   match r with
   | inl err => fatalf "read temp_dir: %v" [AErr err]
   | inr entries => forEach entries (moveEntry DataDir TempDir)
   end) w = (r, w') →
  ∃ d, trace w' = trace w ++ d ∧ outcome_fs r d ∧ r ≠ Hang ∧
    (temp_dir (fs w) = None → fs w' = fs w) ∧
    ∀ st, temp_dir (fs w) = Some st →
      Forall (λ ev, ∀ src, renamed_from ev = Some src →
         ∃ x, x ∈ dir_entries st ∧ IsDir x = true ∧ src = Join TempDir (Name x)) d ∧
      (∀ n', (∀ x, x ∈ dir_entries st → IsDir x = true → Name x ≠ n') →
         entry_at DataDir n' (fs w') = entry_at DataDir n' (fs w) ∧
         entry_at TempDir n' (fs w') = entry_at TempDir n' (fs w)) ∧
      (r = Val tt →
         (∃ segs, d = EvFs (ReadDir TempDir) None :: concat segs ∧
                  Forall2 swap_segment (dir_entries st) segs) ∧
         ∀ x, x ∈ dir_entries st → IsDir x = true →
           ∃ e, st !! Name x = Some e ∧ entry_at DataDir (Name x) (fs w') = Some e).
Proof.
  intros H. bind_step H. 2,3: by apply os_ReadDir_run in Hrun as [(? & ? & ?)|(? & ? & ?)].
  apply os_ReadDir_run in Hrun as [(c & ? & Hc)|(m & ? & Hm & Hc)]; simplify_eq.
  - apply fatalf_run in H as (-> & Hc1). dest_upd Hc. dest_upd Hc1.
    exists [EvFs (ReadDir TempDir) (Some (fs_error (ReadDir TempDir) c));
            EvPrintf "read temp_dir: %v" [AErr (fs_error (ReadDir TempDir) c)]].
    split; [rewrite u_trace0, u_trace; by rewrite <- app_assoc|].
    split; [by eapply (died_now _ _ _ _ []); [done|by apply Forall_nil|done|done|exists c|done]|].
    split; [done|]. split; [congruence|].
    intros st Hst. split; [|split; [|done]].
    + apply Forall_cons; split; [done|]. apply Forall_cons; split; [done|by apply Forall_nil].
    + intros. rewrite u_fs0, u_fs. done.
  - apply forEach_move in H as (d & Ht & Ho & Hh & Hev & Hfr & Hok);
      [|apply dir_entries_NoDup].
    dest_upd Hc. simpl in Hm.
    exists (EvFs (ReadDir TempDir) None :: d). split_and!; try done.
    + rewrite Ht, u_trace. by rewrite <- app_assoc.
    + by apply (outcome_fs_app _ [_]); [repeat constructor|].
    + congruence.
    + intros st Hst. assert (m = st) as -> by congruence. split_and!.
      * apply Forall_cons; split; [done|]. exact Hev.
      * intros n' Hn'. destruct (Hfr n' Hn') as [-> ->]. by rewrite u_fs.
      * intros ->. destruct Hok as [(segs & -> & Hsegs) Hmoved]; [done|]. split.
        -- by exists segs.
        -- intros x Hx Hd. destruct (Hmoved x Hx Hd) as (e & He1 & He2). exists e.
           split; [|done]. rewrite u_fs in He1. unfold entry_at in He1. simpl in He1.
           by rewrite Hst in He1.
Qed.

Lemma answer_not_exit input c : answer input ≠ Exit c.
Proof. induction input as [|line rest IH]; simpl; [done|]. by destruct (classify line). Qed.

Lemma copyMigrated_run w r w' :
  copyMigrated DataDir TempDir w = (r, w') →
  ∃ dp w1 b, Forall (λ e, prompt_ev e = true) dp ∧ fs w1 = fs w ∧
    trace w1 = trace w ++ dp ∧
    match answer (stdin w) with
    | Val false => r = Val tt ∧ w' = w1
    | Val true =>
        (Println [AStr "Copying the migrated data to the original directory..."];;
         r ← os_ReadDir TempDir;
         match r with
         | inl err => fatalf "read temp_dir: %v" [AErr err]
         | inr entries => forEach entries (moveEntry DataDir TempDir)
         end) w1 = (r, w')
    | Hang => r = Hang ∧ w' = w1
    | Exit _ => False
    end ∧ answer (stdin w) = b.
Proof.
  unfold copyMigrated. intros H. bind_step H.
  - apply promptYesNo_run in Hrun as (Ha & Hfs & dp & Ht & Hp).
    exists dp, w0, (answer (stdin w)). rewrite <- Ha. split_and!; try done.
    destruct a; [done|]. unfold mret, M_ret in H. by simplify_eq.
  - apply promptYesNo_run in Hrun as (Ha & Hfs & dp & Ht & Hp).
    by destruct (answer_not_exit (stdin w) x).
  - apply promptYesNo_run in Hrun as (Ha & Hfs & dp & Ht & Hp).
    exists dp, w', (answer (stdin w)). rewrite <- Ha. by split_and!.
Qed.

Lemma copyMigrated_outcome w r w' :
  copyMigrated DataDir TempDir w = (r, w') →
  ∃ d, trace w' = trace w ++ d ∧ outcome_fs r d ∧
    (answer (stdin w) = Val false → r = Val tt ∧ fs w' = fs w ∧
       Forall (λ e, prompt_ev e = true) d) ∧
    (temp_dir (fs w) = None → fs w' = fs w) ∧
    ∀ st, temp_dir (fs w) = Some st →
      Forall (λ ev, ∀ src, renamed_from ev = Some src →
         ∃ x, x ∈ dir_entries st ∧ IsDir x = true ∧ src = Join TempDir (Name x)) d ∧
      (∀ n', (∀ x, x ∈ dir_entries st → IsDir x = true → Name x ≠ n') →
         entry_at DataDir n' (fs w') = entry_at DataDir n' (fs w) ∧
         entry_at TempDir n' (fs w') = entry_at TempDir n' (fs w)) ∧
      (answer (stdin w) = Val true → r = Val tt →
         (∃ dp segs, Forall (λ e, prompt_ev e = true) dp ∧
            d = dp ++ [EvPrintln [AStr "Copying the migrated data to the original directory..."];
                       EvFs (ReadDir TempDir) None] ++ concat segs ∧
            Forall2 swap_segment (dir_entries st) segs) ∧
         ∀ x, x ∈ dir_entries st → IsDir x = true →
           ∃ e, st !! Name x = Some e ∧ entry_at DataDir (Name x) (fs w') = Some e).
Proof.
  intros H. apply copyMigrated_run in H as (dp & w1 & b & Hp & Hfs & Ht & Hr & Hb).
  destruct b as [[|]|c|]; rewrite Hb in Hr; try done.
  - (* confirmed *)
    bind_step Hr. 2,3: by apply Println_run in Hrun as (? & ?).
    apply Println_run in Hrun as (_ & Hc). dest_upd Hc.
    apply moveAll_run in Hr as (d & Ht2 & Ho & Hh & Hnone & Hsome).
    exists (dp ++ [EvPrintln [AStr "Copying the migrated data to the original directory..."]] ++ d).
    split_and!.
    + rewrite Ht2, u_trace, Ht. by rewrite <- !app_assoc.
    + apply outcome_fs_app; [by apply prompt_quiet|].
      apply outcome_fs_app; [by repeat constructor|done].
    + intros ?; congruence.
    + intros Hn. rewrite Hnone by congruence. congruence.
    + intros st Hst. destruct (Hsome st) as (Hev & Hfr & Hok); [congruence|].
      split_and!.
      * apply Forall_app_2.
        { eapply Forall_impl; [exact (prompt_not_renamed _ Hp)|]. simpl.
          intros ev -> src. done. }
        apply Forall_cons; split; [done|exact Hev].
      * intros n' Hn'. destruct (Hfr n' Hn') as [-> ->]. by rewrite u_fs, Hfs.
      * intros _ ->. destruct Hok as [(segs & -> & Hsegs) Hmoved]; [done|]. split.
        -- by exists dp, segs.
        -- done.
  - (* declined *)
    destruct Hr as [-> ->]. exists dp. split_and!; try done.
    + by apply prompt_quiet.
    + intros st Hst. split; [|split].
      * eapply Forall_impl; [exact (prompt_not_renamed _ Hp)|]. simpl.
        intros ev -> src. done.
      * intros. by rewrite Hfs.
      * intros; congruence.
  - (* the operator never answers *)
    destruct Hr as [-> ->]. exists dp. split_and!; try done.
    + by apply prompt_quiet.
    + intros; congruence.
    + intros st Hst. split; [|split].
      * eapply Forall_impl; [exact (prompt_not_renamed _ Hp)|]. simpl.
        intros ev -> src. done.
      * intros. by rewrite Hfs.
      * intros; congruence.
Qed.

Lemma removeTempDir_run w r w' :
  removeTempDir TempDir w = (r, w') →
  ∃ d, trace w' = trace w ++ d ∧ outcome_fs r d ∧ r ≠ Hang ∧
    data_dir (fs w') = data_dir (fs w) ∧
    Forall (λ e, renamed_from e = None) d ∧
    (r = Val tt → temp_dir (fs w') = None).
Proof.
  unfold removeTempDir. intros H. bind_step H.
  2,3: by apply os_call_run in Hrun as [(? & ? & ?)|(? & ? & ?)].
  apply os_call_run in Hrun as [(c & ? & Hc & _)|(f1 & ? & _ & Hsem & Hc)]; simplify_eq.
  - apply fatalf_run in H as (-> & Hc1). dest_upd Hc. dest_upd Hc1.
    eexists [_;_].
    split; [rewrite u_trace0, u_trace; by rewrite <- app_assoc|].
    split; [by eapply (died_now _ _ _ _ []); [done|by apply Forall_nil|done|done|exists c|done]|].
    split; [done|]. split; [congruence|]. split; [|done].
    apply Forall_cons; split; [done|]. apply Forall_cons; split; [done|by apply Forall_nil].
  - unfold mret, M_ret in H. simplify_eq. simpl in Hsem. injection Hsem as <-.
    dest_upd Hc. eexists [_].
    split; [done|]. split; [by repeat constructor|]. split; [done|].
    split; [by rewrite u_fs|]. split; [|by rewrite u_fs].
    apply Forall_cons; split; [done|by apply Forall_nil].
Qed.

(** ** [main] *)

(** A part of [main] before the confirmation that does not return ends the
    run. *)
Lemma main_post_early w w1 w' (r : Res unit) d1 d2 :
  steady w w1 d1 → quiet d1 → steady w1 w' d2 → outcome r d2 →
  (∀ a, r ≠ Val a) → main_post w r w' (d1 ++ d2).
Proof.
  intros (Ht1 & Hs1 & Hf1) Hq (Ht2 & Hs2 & Hf2) Ho Hr. split; [|split].
  - rewrite Ht2, Ht1. by rewrite <- app_assoc.
  - destruct r as [a|c|]; [by destruct (Hr a)| |by apply quiet_app].
    destruct Ho as (-> & e & f & a & Hd). split; [done|]. exists e, f, a.
    split; [by apply died_app|]. intros _. congruence.
  - intros _. split; [congruence|]. intros ->. by destruct (Hr tt).
Qed.

Lemma main_run backend w r w' :
  main backend w = (r, w') → ∃ d, main_post w r w' d.
Proof.
  unfold main. intros H.
  (* 0. Create the temporary directory *)
  bind_step H; apply createTempDir_run in Hrun as (d0 & Hs0 & Ho0).
  2,3: exists ([] ++ d0); by apply (main_post_early w w); [apply steady_refl|apply Forall_nil|..].
  simpl in Ho0.
  (* 1. Migrate common CometBFT databases *)
  bind_step H; apply migrateCommon_run in Hrun as (d1 & Hs1 & Ho1).
  2,3: exists (d0 ++ d1); by eapply main_post_early.
  simpl in Ho1.
  pose proof (steady_trans _ _ _ _ _ Hs0 Hs1) as Hs01.
  pose proof (quiet_app _ _ Ho0 Ho1) as Hq01.
  (* 2. Migrate the light client database, if it exists *)
  bind_step H; apply migrateLightClient_run in Hrun as (d2 & Hs2 & Ho2).
  2,3: exists ((d0 ++ d1) ++ d2); by eapply main_post_early.
  simpl in Ho2.
  pose proof (steady_trans _ _ _ _ _ Hs01 Hs2) as (Ht012 & Hin012 & Hf012).
  pose proof (quiet_app _ _ Hq01 Ho2) as Hq012.
  (* 3. Copy the migrated data to the original directory. *)
  bind_step H; apply copyMigrated_outcome in Hrun as (d3 & Ht3 & Ho3 & Hno & _).
  2:{ exists (((d0 ++ d1) ++ d2) ++ d3). split; [|split].
      - rewrite Ht3, Ht012; by rewrite <- !app_assoc.
      - destruct Ho3 as (-> & e & f & args & Hd & He); split; [done|].
        exists e, f, args; split; [by apply died_app|intros; congruence].
      - intros Ha; rewrite <- Hin012 in Ha. by destruct (Hno Ha) as (? & _). }
  2:{ exists (((d0 ++ d1) ++ d2) ++ d3). split; [|split].
      - rewrite Ht3, Ht012; by rewrite <- !app_assoc.
      - by apply quiet_app.
      - intros Ha; rewrite <- Hin012 in Ha; by destruct (Hno Ha) as (? & _). }
  simpl in Ho3.
  (* 4. Remove the temporary directory *)
  bind_step H; apply removeTempDir_run in Hrun as (d4 & Ht4 & Ho4 & Hh4 & Hf4 & _ & Hgone).
  3: done.
  - apply Println_run in H as (-> & Hc). dest_upd Hc.
    exists ((((d0 ++ d1) ++ d2) ++ d3) ++ d4 ++ [EvPrintln [AStr "Migration completed successfully!"]]).
    split; [|split].
    + rewrite u_trace, Ht4, Ht3, Ht012. by rewrite <- !app_assoc.
    + simpl in Ho4. repeat apply quiet_app; try done. by repeat constructor.
    + intros Ha. rewrite <- Hin012 in Ha. destruct (Hno Ha) as (_ & Hfs & _).
      rewrite u_fs. split; [congruence|]. intros _. apply Hgone.
      by match goal with |- Val ?x = _ => destruct x end.
  - exists ((((d0 ++ d1) ++ d2) ++ d3) ++ d4). split; [|split].
    + rewrite Ht4, Ht3, Ht012. by rewrite <- !app_assoc.
    + destruct Ho4 as (-> & e & f & args & Hd & He). split; [done|]. exists e, f, args.
      split; [apply died_app; [by apply quiet_app|done]|intros; congruence].
    + intros Ha. rewrite <- Hin012 in Ha. destruct (Hno Ha) as (_ & Hfs & _).
      split; [congruence|done].
Qed.

Lemma fs_error_paths op c : error_paths (fs_error op c) = op_paths op.
Proof. by destruct op. Qed.

Lemma main_fatal backend w r w' pre e post :
  main backend w = (r, w') →
  trace w' = trace w ++ pre ++ e :: post →
  fatal_ev e = true →
  r = Exit 1 ∧ quiet pre ∧ canonical e ∧
  (migration_error_ev e = true → data_dir (fs w') = data_dir (fs w)) ∧
  ∃ closes format args, post = closes ++ [EvPrintf format args] ∧
    Forall (λ x, wrapup_ev x = true) closes ∧ reports e format args ∧
    (migration_error_ev e = false → closes = []).
Proof.
  intros H Ht He. apply main_run in H as (d & Ht' & Hr & _).
  rewrite Ht' in Ht. apply app_inv_head in Ht as ->.
  destruct r as [a|c|].
  - by rewrite (quiet_not_fatal _ _ _ _ Hr eq_refl) in He.
  - destruct Hr as (-> & e0 & f & a & Hd & Hlive).
    destruct (died_split _ _ _ _ _ _ _ Hd eq_refl He) as (-> & Hq & closes & -> & Hw & Hnone).
    destruct Hd as (? & ? & _ & _ & _ & _ & Hrep & Hcan & _).
    split_and!; try done. by exists closes, f, a.
  - by rewrite (quiet_not_fatal _ _ _ _ Hr eq_refl) in He.
Qed.

(** ** The claims about [main] *)

(** C3: when the operator declines, the run leaves the data directory as
    it was and, when it ends normally, has removed the staging directory
    with the migrated data; the step that copies the migrated data asks the
    question, does nothing else and changes nothing. *)
Theorem declined_keeps_data_dir backend w r w' :
  main backend w = (r, w') →
  (promptYesNo backup_question w).1 = Val false →
  live w' = live w ∧ (r = Val tt → staging w' = None) ∧
  (∀ w1 r1 w1', copyMigrated DataDir TempDir w1 = (r1, w1') →
     (promptYesNo backup_question w1).1 = Val false →
     r1 = Val tt ∧ fs w1' = fs w1 ∧
     ∀ d, trace w1' = trace w1 ++ d → Forall (λ e, prompt_ev e = true) d).
Proof.
  intros H Hno. rewrite promptYesNo_answer in Hno.
  apply main_run in H as (d & _ & _ & Hdecl). destruct (Hdecl Hno) as [Hlive Hgone].
  split_and!; try done.
  intros w1 r1 w1' H1 Hno1. rewrite promptYesNo_answer in Hno1.
  apply copyMigrated_outcome in H1 as (d1 & Ht1 & _ & Hd1 & _).
  destruct (Hd1 Hno1) as (-> & Hfs & Hp). split_and!; try done.
  intros d' Hd'. rewrite Ht1 in Hd'. by apply app_inv_head in Hd' as <-.
Qed.

Lemma declined_keeps_data_dir_witness :
  live (main GoLevelDBBackend (node_world ["n"] [])).2 = Some node_data ∧
  staging (main GoLevelDBBackend (node_world ["n"] [])).2 = None.
Proof.
  assert (H1 : main GoLevelDBBackend (node_world ["n"] [])
               = (Val tt, (main GoLevelDBBackend (node_world ["n"] [])).2)) by by_compute.
  assert (H2 : (promptYesNo backup_question (node_world ["n"] [])).1 = Val false)
    by by_compute.
  pose proof (declined_keeps_data_dir _ _ _ _ H1 H2) as (Ha & Hb & _).
  split; [exact Ha|exact (Hb eq_refl)].
Defined.

(** C5: an error of a migration (opening a store, obtaining the iterator,
    adding to a batch, committing or closing a batch) ends the run at that
    point: nothing fatal came before it, after it come only the deferred
    calls (the ticker is stopped, the iterator and the stores are closed)
    and the message of [fatalf], so no further record is processed and no
    other store is migrated; the process exits with status 1 and the data
    directory is as it was. *)
Theorem migration_error_ends_run backend w r w' pre e post :
  main backend w = (r, w') →
  trace w' = trace w ++ pre ++ e :: post →
  migration_error_ev e = true →
  r = Exit 1 ∧ exit_status r = Some 1 ∧ live w' = live w ∧ quiet pre ∧
  ∃ closes format args, post = closes ++ [EvPrintf format args] ∧
    Forall (λ x, wrapup_ev x = true) closes ∧ reports e format args.
Proof.
  intros H Ht He.
  destruct (main_fatal _ _ _ _ _ _ _ H Ht (migration_error_fatal _ He))
    as (-> & Hq & _ & Hlive & closes & f & a & -> & Hw & Hrep & _).
  split_and!; try done; [by apply Hlive|]. by exists closes, f, a.
Qed.

Lemma migration_error_ends_run_witness :
  (main GoLevelDBBackend (node_world ["y"] commit_fault)).1 = Exit 1 ∧
  live (main GoLevelDBBackend (node_world ["y"] commit_fault)).2 = Some node_data.
Proof.
  pose (w' := (main GoLevelDBBackend (node_world ["y"] commit_fault)).2).
  assert (H1 : main GoLevelDBBackend (node_world ["y"] commit_fault) = (Exit 1, w'))
    by by_compute.
  assert (H2 : trace w' = trace (node_world ["y"] commit_fault) ++ take 28 (trace w') ++
                 EvDb (WriteSync TempDir "state" [(key_a, val_2)]) (Some (Cause ENOSPC))
                 :: drop 29 (trace w')) by by_compute.
  pose proof (migration_error_ends_run _ _ _ _ _ _ _ H1 H2 eq_refl) as (_ & _ & Hl & _).
  split; [by_compute|exact Hl].
Defined.

(** What [main] does after a [Stat] that failed. *)
Lemma migrateLightClient_stat backend w r w' p err d :
  migrateLightClient DataDir backend TempDir w = (r, w') →
  trace w' = trace w ++ EvFs (Stat p) (Some err) :: d →
  r = Val tt ∧ d = [] ∧ fs w' = fs w.
Proof.
  unfold migrateLightClient. intros H Ht. bind_step H.
  2,3: by apply os_Stat_run in Hrun as (? & ? & ?).
  apply os_Stat_run in Hrun as (o & ? & Hc & _); simplify_eq. dest_upd Hc.
  destruct o as [e|].
  - unfold mret, M_ret in H. simplify_eq. rewrite u_trace in Ht.
    apply app_inv_head in Ht. injection Ht as _ <-. by split_and!.
  - apply migrateOrDie_run in H as (d' & (Ht' & _) & _). rewrite Ht', u_trace in Ht.
    rewrite <- app_assoc in Ht. apply app_inv_head in Ht. by simpl in Ht.
Qed.

Lemma migrateLightClient_absent backend w r w' :
  migrateLightClient DataDir backend TempDir w = (r, w') →
  entry_at DataDir lightClientDBName (fs w) = None →
  r = Val tt ∧ fs w' = fs w ∧
  ∃ err, trace w' = trace w ++ [EvFs (Stat (Join DataDir lightClientDBName)) (Some err)].
Proof.
  unfold migrateLightClient. intros H Ha. bind_step H.
  2,3: by apply os_Stat_run in Hrun as (? & ? & ?).
  apply os_Stat_run in Hrun as (o & ? & Hc & Hex); simplify_eq. dest_upd Hc.
  destruct o as [e|].
  - unfold mret, M_ret in H. simplify_eq. split_and!; try done. by exists e.
  - specialize (Hex eq_refl). unfold fs_exists, Join in Hex. unfold entry_at in Ha.
    rewrite Ha in Hex. apply bool_decide_eq_true in Hex. by destruct Hex.
Qed.

Lemma rename_entry_first n w r w' :
  (err ← os_Rename (Join TempDir n) (Join DataDir n);
   match err with
   | Some err => fatalf "rename %s: %v" [AStr n; AErr err]
   | None => mret tt
   end;;
   Printf "Moved %s -> %s\n" [APath (Join TempDir n); APath (Join DataDir n)]) w = (r, w') →
  ∃ o rest, trace w' = trace w ++ EvFs (Rename (Join TempDir n) (Join DataDir n)) o :: rest.
Proof.
  intros H. bind_step H. 2,3: by apply os_call_run in Hrun as [(? & ? & ?)|(? & ? & ?)].
  apply os_call_run in Hrun as [(c & ? & Hc & _)|(f1 & ? & _ & Hsem & Hc)]; simplify_eq.
  - bind_step H. 1,3: by apply fatalf_run in Hrun as (? & _).
    apply fatalf_run in Hrun as (_ & Hc1). dest_upd Hc; dest_upd Hc1.
    eexists _, [_]. rewrite u_trace0, u_trace. by rewrite <- app_assoc.
  - bind_step H. 2,3: by unfold mret, M_ret in Hrun.
    unfold mret, M_ret in Hrun. simplify_eq.
    apply Printf_run in H as (_ & Hc1). dest_upd Hc; dest_upd Hc1.
    eexists _, [_]. rewrite u_trace0, u_trace. by rewrite <- app_assoc.
Qed.

Lemma moveEntry_stat entry w r w' p err d :
  moveEntry DataDir TempDir entry w = (r, w') →
  trace w' = trace w ++ EvFs (Stat p) (Some err) :: d →
  ∃ o rest, d = EvFs (Rename (Join TempDir (Name entry)) (Join DataDir (Name entry))) o :: rest.
Proof.
  unfold moveEntry. destruct entry as [n isdir]. simpl. destruct isdir.
  2:{ unfold mret, M_ret. intros ? Ht; simplify_eq.
      rewrite <- (app_nil_r (trace w')) in Ht at 1. by apply app_inv_head in Ht. }
  intros H Ht.
  assert (Hstat : ∀ r0 w0,
    (err ← os_Stat (Join DataDir n);
     match err with
     | None =>
         Printf "Replacing %s\n" [APath (Join DataDir n)];;
         err ← os_RemoveAll (Join DataDir n);
         match err with
         | Some err => fatalf "remove all: %v" [AErr err]
         | None => mret tt
         end
     | Some _ => mret tt
     end) w = (r0, w0) →
    (∃ e, r0 = Val tt ∧ trace w0 = trace w ++ [EvFs (Stat (Join DataDir n)) (Some e)]) ∨
    (∃ rest, trace w0 = trace w ++ EvFs (Stat (Join DataDir n)) None :: rest)).
  { intros r0 w0 Hk. bind_case Hk; try (by apply os_Stat_run in Hrun as (? & ? & ?)).
    apply os_Stat_run in Hrun as (o & ? & Hc & _); simplify_eq. dest_upd Hc.
    destruct o as [e|].
    - unfold mret, M_ret in Hk. simplify_eq. left. by exists e.
    - right. bind_case Hk; try (by apply Printf_run in Hrun as (? & ?)).
      apply Printf_run in Hrun as (_ & Hc1). dest_upd Hc1.
      bind_case Hk; try (by apply os_call_run in Hrun as [(? & ? & ?)|(? & ? & ?)]).
      apply os_call_run in Hrun as [(c & ? & Hc & _)|(f1 & ? & _ & Hsem & Hc)];
        dest_upd Hc; simplify_eq.
      + apply fatalf_run in Hk as (_ & Hc2). dest_upd Hc2. eexists [_;_;_].
        rewrite u_trace2, u_trace1, u_trace0, u_trace. by rewrite <- !app_assoc.
      + unfold mret, M_ret in Hk. simplify_eq. eexists [_;_].
        rewrite u_trace1, u_trace0, u_trace. by rewrite <- !app_assoc. }
  bind_step H.
  - apply Hstat in Hrun as [(e & _ & Ht1)|(rest & Ht1)].
    + apply rename_entry_first in H as (o & rest & Ht2).
      rewrite Ht2, Ht1, <- app_assoc in Ht. apply app_inv_head in Ht.
      injection Ht as _ _ <-. by exists o, rest.
    + apply rename_entry_first in H as (o & rest' & Ht2).
      rewrite Ht2, Ht1, <- app_assoc in Ht. apply app_inv_head in Ht. by simpl in Ht.
  - apply Hstat in Hrun as [(e & ? & Ht1)|(rest & Ht1)]; [done|].
    rewrite Ht1 in Ht. apply app_inv_head in Ht. by simpl in Ht.
  - apply Hstat in Hrun as [(e & ? & Ht1)|(rest & Ht1)]; [done|].
    rewrite Ht1 in Ht. apply app_inv_head in Ht. by simpl in Ht.
Qed.

Lemma removeTempDir_success w w' :
  removeTempDir TempDir w = (Val tt, w') →
  trace w' = trace w ++ [EvFs (RemoveAll (TempDir, None)) None] ∧
  data_dir (fs w') = data_dir (fs w) ∧ temp_dir (fs w') = None.
Proof.
  unfold removeTempDir. intros H. bind_case H;
    try (by apply os_call_run in Hrun as [(? & ? & ?)|(? & ? & ?)]).
  apply os_call_run in Hrun as [(c & ? & Hc & _)|(f1 & ? & _ & Hsem & Hc)]; simplify_eq.
  unfold mret, M_ret in H. simplify_eq. simpl in Hsem. injection Hsem as <-.
  dest_upd Hc. by rewrite u_fs.
Qed.

Lemma since_app w w' d : trace w' = trace w ++ d → since w w' = d.
Proof. unfold since. intros ->. by rewrite drop_app_length. Qed.

(** The two last steps of [main]. *)
Lemma swap_run w r w' :
  (copyMigrated DataDir TempDir;; removeTempDir TempDir) w = (r, w') →
  ∃ w1 r1 d3 d4, copyMigrated DataDir TempDir w = (r1, w1) ∧
    trace w1 = trace w ++ d3 ∧ trace w' = trace w1 ++ d4 ∧
    data_dir (fs w') = data_dir (fs w1) ∧ Forall (λ e, renamed_from e = None) d4 ∧
    (r = Val tt → r1 = Val tt ∧ removeTempDir TempDir w1 = (Val tt, w')).
Proof.
  intros H. bind_step H.
  - pose proof Hrun as Hcopy.
    apply copyMigrated_outcome in Hrun as (d3 & Ht3 & _).
    pose proof H as Hrm.
    apply removeTempDir_run in H as (d4 & Ht4 & _ & _ & Hf4 & Hev4 & _).
    exists w0, (Val a), d3, d4. split_and!; try done. intros ->. by destruct a.
  - pose proof Hrun as Hcopy.
    apply copyMigrated_outcome in Hrun as (d3 & Ht3 & _).
    exists w', (Exit x), d3, []. rewrite app_nil_r. split_and!; fin.
  - pose proof Hrun as Hcopy.
    apply copyMigrated_outcome in Hrun as (d3 & Ht3 & _).
    exists w', Hang, d3, []. rewrite app_nil_r. split_and!; fin.
Qed.

Lemma file_not_dir_entry (st : gmap string entry) n :
  (∀ e, st !! n = Some e → entry_is_dir e = false) →
  ∀ x, x ∈ dir_entries st → IsDir x = true → Name x ≠ n.
Proof.
  intros Hn x Hx Hd <-. apply elem_of_dir_entries in Hx as (e & He & Hde).
  specialize (Hn e He). congruence.
Qed.

(** C7 (amended): a failed [MkdirAll], [ReadDir], [RemoveAll] or [Rename]
    ends the run with status 1; the message of [fatalf] comes right after
    the failed call and prints the error, which names the paths of the call.
    A failed [Stat] is never fatal, whatever the error: when the [Stat] of
    the light client database fails (the database is absent, or the call
    fails otherwise) its migration is skipped and the run goes on, and in
    the swap a failed [Stat] of the destination is followed by the rename. *)
Theorem os_error_fatal_unless_stat backend w r w' pre op err post :
  main backend w = (r, w') →
  trace w' = trace w ++ pre ++ EvFs op (Some err) :: post →
  is_stat op = false →
  (r = Exit 1 ∧ error_paths err = op_paths op ∧
   ∃ format args, post = [EvPrintf format args] ∧ AErr err ∈ args) ∧
  (∀ w1 r1 w1', migrateLightClient DataDir backend TempDir w1 = (r1, w1') →
     (entry_at DataDir lightClientDBName (fs w1) = None →
      r1 = Val tt ∧ fs w1' = fs w1 ∧
      ∃ e, trace w1' = trace w1 ++ [EvFs (Stat (Join DataDir lightClientDBName)) (Some e)]) ∧
     (∀ p e d, trace w1' = trace w1 ++ EvFs (Stat p) (Some e) :: d →
      r1 = Val tt ∧ d = [] ∧ fs w1' = fs w1)) ∧
  (∀ entry w1 r1 w1' p e d, moveEntry DataDir TempDir entry w1 = (r1, w1') →
     trace w1' = trace w1 ++ EvFs (Stat p) (Some e) :: d →
     ∃ o rest,
       d = EvFs (Rename (Join TempDir (Name entry)) (Join DataDir (Name entry))) o :: rest).
Proof.
  intros H Ht Hop. split; [|split].
  - assert (Hf : fatal_ev (EvFs op (Some err)) = true) by by destruct op.
    destruct (main_fatal _ _ _ _ _ _ _ H Ht Hf)
      as (-> & _ & [c ->] & _ & closes & f & a & -> & _ & Hrep & Hnone).
    rewrite (Hnone eq_refl). split; [done|]. split; [apply fs_error_paths|].
    exists f, a. split; [done|].
    destruct op as [d|p|d|[d [n|]]|[sd [sn|]] dst]; simpl in Hrep; try done;
      destruct Hrep as [_ ->]; set_solver.
  - intros w1 r1 w1' H1. split.
    + by apply (migrateLightClient_absent backend).
    + intros p e d. by apply (migrateLightClient_stat backend).
  - intros entry w1 r1 w1' p e d. apply moveEntry_stat.
Qed.

Lemma os_error_fatal_unless_stat_witness :
  (main GoLevelDBBackend (node_world [] [Some EACCES])).1 = Exit 1 ∧
  error_paths (PathError "mkdir" (TempDir, None) EACCES) = [(TempDir, None)].
Proof.
  pose (w' := (main GoLevelDBBackend (node_world [] [Some EACCES])).2).
  assert (H1 : main GoLevelDBBackend (node_world [] [Some EACCES]) = (Exit 1, w'))
    by by_compute.
  assert (H2 : trace w' = trace (node_world [] [Some EACCES]) ++ [] ++
                 EvFs (MkdirAll TempDir) (Some (PathError "mkdir" (TempDir, None) EACCES))
                 :: drop 1 (trace w')) by by_compute.
  pose proof (os_error_fatal_unless_stat _ _ _ _ _ _ _ _ H1 H2 eq_refl) as ((_ & Hp & _) & _).
  split; [by_compute|exact Hp].
Defined.

(** C8: in the swap, a failed removal of an entry of the data directory
    and a failed rename of a staged entry end the run with status 1; the
    message of [fatalf] follows at once, with the error of the call, which
    names the path removed, respectively with the name of the entry and the
    error, which names both paths of the rename. *)
Theorem swap_failure_fatal backend w r w' pre e post n err :
  main backend w = (r, w') →
  trace w' = trace w ++ pre ++ e :: post →
  e = EvFs (RemoveAll (Join DataDir n)) (Some err) ∨
  e = EvFs (Rename (Join TempDir n) (Join DataDir n)) (Some err) →
  r = Exit 1 ∧ quiet pre ∧
  (e = EvFs (RemoveAll (Join DataDir n)) (Some err) →
   post = [EvPrintf "remove all: %v" [AErr err]] ∧ error_paths err = [Join DataDir n]) ∧
  (e = EvFs (Rename (Join TempDir n) (Join DataDir n)) (Some err) →
   post = [EvPrintf "rename %s: %v" [AStr n; AErr err]] ∧
   error_paths err = [Join TempDir n; Join DataDir n]).
Proof.
  intros H Ht He.
  assert (Hf : fatal_ev e = true) by by destruct He as [->| ->].
  destruct (main_fatal _ _ _ _ _ _ _ H Ht Hf)
    as (-> & Hq & Hcan & _ & closes & f & a & -> & _ & Hrep & Hnone).
  assert (closes = []) as -> by (apply Hnone; by destruct He as [->| ->]).
  split; [done|]. split; [done|]. split; intros ->.
  - destruct Hcan as [c ->]. by destruct Hrep as [-> ->].
  - destruct Hcan as [c ->]. by destruct Hrep as [-> ->].
Qed.

Lemma swap_failure_fatal_witness :
  (main GoLevelDBBackend (node_world ["y"] rename_fault)).1 = Exit 1 ∧
  drop 77 (trace (main GoLevelDBBackend (node_world ["y"] rename_fault)).2) =
    [EvPrintf "rename %s: %v"
       [AStr "blockstore.db";
        AErr (LinkError "rename" (Join TempDir "blockstore.db")
                (Join DataDir "blockstore.db") EACCES)]].
Proof.
  pose (w' := (main GoLevelDBBackend (node_world ["y"] rename_fault)).2).
  assert (H1 : main GoLevelDBBackend (node_world ["y"] rename_fault) = (Exit 1, w'))
    by by_compute.
  assert (H2 : trace w' = trace (node_world ["y"] rename_fault) ++ take 76 (trace w') ++
                 EvFs (Rename (Join TempDir "blockstore.db") (Join DataDir "blockstore.db"))
                   (Some (LinkError "rename" (Join TempDir "blockstore.db")
                            (Join DataDir "blockstore.db") EACCES))
                 :: drop 77 (trace w')) by by_compute.
  pose proof (swap_failure_fatal _ _ _ _ _ _ _ _ _ H1 H2 (or_intror eq_refl))
    as (_ & _ & _ & Hp).
  split; [by_compute|exact (proj1 (Hp eq_refl))].
Defined.

(** C7, as the specification has it, fails: the [Stat] of the light client
    database fails with a permission error, and the run goes on and ends
    normally, with no fatal failure in its trace. *)
Lemma stat_error_not_fatal :
  (main GoLevelDBBackend (light_node_world ["n"] stat_fault)).1 = Val tt ∧
  EvFs (Stat (Join DataDir lightClientDBName))
       (Some (PathError "stat" (Join DataDir lightClientDBName) EACCES))
    ∈ trace (main GoLevelDBBackend (light_node_world ["n"] stat_fault)).2 ∧
  exit_status (main GoLevelDBBackend (light_node_world ["n"] stat_fault)).1 = Some 0.
Proof. split; [by_compute|split; by_compute]. Qed.

(** C4: when the operator confirms and the run goes through, each entry of
    the staging directory that is a directory is moved in the order of
    [ReadDir]: its namesake in the data directory, when [Stat] finds one, is
    removed with all it holds, then the staged entry is renamed into the
    data directory, where it is afterwards exactly as it was staged; the
    other names of the data directory keep their entries, and the staging
    directory is gone. *)
Theorem confirmed_swap w w' st :
  (promptYesNo backup_question w).1 = Val true →
  staging w = Some st →
  (copyMigrated DataDir TempDir;; removeTempDir TempDir) w = (Val tt, w') →
  staging w' = None ∧
  (∀ n e, st !! n = Some e → entry_is_dir e = true →
          entry_at DataDir n (fs w') = Some e) ∧
  (∀ n, (∀ e, st !! n = Some e → entry_is_dir e = false) →
        entry_at DataDir n (fs w') = entry_at DataDir n (fs w)) ∧
  ∃ dp segs, Forall (λ e, prompt_ev e = true) dp ∧
    Forall2 swap_segment (dir_entries st) segs ∧
    since w w' =
      dp ++ [EvPrintln [AStr "Copying the migrated data to the original directory..."];
             EvFs (ReadDir TempDir) None] ++ concat segs ++
      [EvFs (RemoveAll (TempDir, None)) None].
Proof.
  intros Hyes Hst H. rewrite promptYesNo_answer in Hyes.
  apply swap_run in H as (w1 & r1 & d3 & d4 & Hcopy & _ & _ & _ & _ & Hok).
  destruct (Hok eq_refl) as [-> Hrm].
  apply removeTempDir_success in Hrm as (Ht4 & Hdata & Hgone).
  apply copyMigrated_outcome in Hcopy as (d & Ht & _ & _ & _ & Hsome).
  destruct (Hsome st Hst) as (_ & Hfr & Hconf).
  destruct (Hconf Hyes eq_refl) as [(dp & segs & Hp & -> & Hsegs) Hmoved].
  assert (Hat : ∀ n, entry_at DataDir n (fs w') = entry_at DataDir n (fs w1)).
  { intros n. unfold entry_at. simpl. by rewrite Hdata. }
  split; [done|]. split; [|split].
  - intros n e Hn He. rewrite Hat.
    destruct (Hmoved (mkDirEntry n (entry_is_dir e))) as (e' & He' & Hnew).
    + apply elem_of_dir_entries. by exists e.
    + done.
    + simpl in *. congruence.
  - intros n Hn. rewrite Hat. by apply Hfr, file_not_dir_entry.
  - exists dp, segs. split; [done|]. split; [done|]. apply since_app.
    rewrite Ht4, Ht. by rewrite <- !app_assoc.
Qed.

Lemma confirmed_swap_witness :
  staging ((copyMigrated DataDir TempDir;; removeTempDir TempDir) swap_world).2 = None ∧
  entry_at DataDir "blockstore.db"
    (fs ((copyMigrated DataDir TempDir;; removeTempDir TempDir) swap_world).2) =
    Some (EStore PebbleDBBackend {[ key_a := val_1; key_b := val_2 ]}).
Proof.
  pose (w' := ((copyMigrated DataDir TempDir;; removeTempDir TempDir) swap_world).2).
  assert (H1 : (promptYesNo backup_question swap_world).1 = Val true) by by_compute.
  assert (H2 : (copyMigrated DataDir TempDir;; removeTempDir TempDir) swap_world
               = (Val tt, w')) by by_compute.
  pose proof (confirmed_swap swap_world w' _ H1 eq_refl H2) as (Ha & Hb & _).
  split; [exact Ha|]. apply Hb; by_compute.
Defined.

(** C10: a file of the staging directory is not moved: no rename has it as
    its source (the sources of the renames are the staged entries that are
    directories), the swap leaves it in the staging directory and leaves the
    data directory as it was under its name; when the run goes through, it
    is gone with the staging directory. *)
Theorem staged_file_not_moved w r w' st n data :
  staging w = Some st → st !! n = Some (EFile data) →
  (copyMigrated DataDir TempDir;; removeTempDir TempDir) w = (r, w') →
  (∀ src dst o, EvFs (Rename src dst) o ∈ since w w' →
     ∃ x, x ∈ dir_entries st ∧ IsDir x = true ∧ src = Join TempDir (Name x)) ∧
  (∀ dst o, EvFs (Rename (Join TempDir n) dst) o ∉ since w w') ∧
  entry_at DataDir n (fs w') = entry_at DataDir n (fs w) ∧
  (∀ r1 w1, copyMigrated DataDir TempDir w = (r1, w1) →
     entry_at TempDir n (fs w1) = Some (EFile data)) ∧
  (r = Val tt → staging w' = None).
Proof.
  intros Hst Hn H.
  assert (Hfile : ∀ x, x ∈ dir_entries st → IsDir x = true → Name x ≠ n).
  { apply file_not_dir_entry. intros e He. by simplify_eq. }
  apply swap_run in H as (w1 & r1 & d3 & d4 & Hcopy & Ht3 & Ht4 & Hdata & Hev4 & Hok).
  pose proof Hcopy as Hcopy'.
  apply copyMigrated_outcome in Hcopy' as (d & Ht & _ & _ & _ & Hsome).
  destruct (Hsome st Hst) as (Hev & Hfr & _).
  rewrite Ht in Ht3. apply app_inv_head in Ht3 as <-.
  assert (Hsince : since w w' = d ++ d4).
  { apply since_app. rewrite Ht4, Ht. by rewrite <- app_assoc. }
  assert (Hsrc : ∀ src dst o, EvFs (Rename src dst) o ∈ since w w' →
            ∃ x, x ∈ dir_entries st ∧ IsDir x = true ∧ src = Join TempDir (Name x)).
  { intros src dst o Hin. rewrite Hsince in Hin. apply elem_of_app in Hin as [Hin|Hin].
    - rewrite Forall_forall in Hev. by apply (Hev _ Hin).
    - rewrite Forall_forall in Hev4. by specialize (Hev4 _ Hin). }
  split; [done|]. split; [|split; [|split]].
  - intros dst o Hin. destruct (Hsrc _ _ _ Hin) as (x & Hx & Hd & [= Hname]).
    by apply (Hfile x).
  - destruct (Hfr n Hfile) as [<- _]. unfold entry_at. simpl. by rewrite Hdata.
  - intros r2 w2 Hcopy2. rewrite Hcopy in Hcopy2. simplify_eq.
    destruct (Hfr n Hfile) as [_ ->]. unfold entry_at. simpl.
    unfold staging in Hst. by rewrite Hst.
  - intros ->. destruct (Hok eq_refl) as [_ Hrm].
    by apply removeTempDir_success in Hrm as (_ & _ & ?).
Qed.

Lemma staged_file_not_moved_witness :
  entry_at DataDir "LOCK"
    (fs ((copyMigrated DataDir TempDir;; removeTempDir TempDir) swap_world).2) = None ∧
  staging ((copyMigrated DataDir TempDir;; removeTempDir TempDir) swap_world).2 = None.
Proof.
  pose (w' := ((copyMigrated DataDir TempDir;; removeTempDir TempDir) swap_world).2).
  change (entry_at DataDir "LOCK" (fs w') = None ∧ staging w' = None).
  assert (H2 : (copyMigrated DataDir TempDir;; removeTempDir TempDir) swap_world
               = (Val tt, w')) by by_compute.
  assert (H3 : ∃ st, staging swap_world = Some st ∧ st !! "LOCK" = Some (EFile val_2)).
  { eexists. split; [reflexivity|by_compute]. }
  destruct H3 as (st & Hst & Hn).
  pose proof (staged_file_not_moved swap_world _ w' st "LOCK" val_2 Hst Hn H2)
    as (_ & _ & Hc & _ & He).
  split; [rewrite Hc; by_compute|exact (He eq_refl)].
Defined.
